(** * stream: buffering and replaying HTTP middleware (package [stream])

    A shallow embedding of [stream/stream.go].  The middleware reads a
    request body into a rewindable buffer, calls the wrapped handler on a
    captured response writer, asks an optional retry predicate whether to
    replay, and finally copies the captured response to the real writer.

    Go objects that are mutated through pointers (the real response writer,
    the request buffer and its read cursor, the wrapped handler's private
    state, the stack of deferred calls) live in an explicit [World]; the
    Streamer behind the receiver pointer is a second piece of state.  Both
    are threaded through a small control monad.  The world also keeps a
    chronological trace of the calls made to collaborators, so that
    statements about "every attempt" or "at any point" can be phrased over
    it. *)

From Stdlib Require Import ZArith String Strings.Byte List Bool Lia.
From stdpp Require Import base option list gmap strings fin_maps.
From Equations Require Import Equations.
From Equations.Prop Require Import Logic.

Local Open Scope string_scope.
Local Open Scope list_scope.
Local Open Scope Z_scope.

(** ** Constants *)

(** Store up to 1MB in RAM *)
Definition DefaultMemBodyBytes : Z := 1048576.
(** No limit by default *)
Definition DefaultMaxBodyBytes : Z := -1.
(** Maximum retry attempts *)
Definition DefaultMaxRetryAttempts : Z := 10.

(** [net/http] status codes used by the package. *)
Definition StatusRequestEntityTooLarge : Z := 413.

(** [http.StatusText], restricted to the codes this development mentions. *)
Definition StatusText (code : Z) : string :=
  if code =? 200 then "OK"
  else if code =? 413 then "Request Entity Too Large"
  else if code =? 500 then "Internal Server Error"
  else if code =? 502 then "Bad Gateway"
  else "".

(** ** Errors *)

Inductive error : Type :=
| MaxSizeReachedError (MaxSize : Z)       (* *multibuf.MaxSizeReachedError *)
| Errorf (format : string) (arg : Z)     (* fmt.Errorf(format, arg) *)
| OtherError (msg : string).             (* any other error value *)

Definition is_MaxSizeReachedError (err : option error) : bool :=
  match err with
  | Some (MaxSizeReachedError _) => true
  | _ => false
  end.

(** ** Headers

    [http.Header] is a map from keys to lists of values.  [Header.Add]
    appends under the canonical form of the key; the canonicalisation
    belongs to the host library and is a parameter [canon]. *)

Abbreviation Header := (gmap string (list string)).

Definition Header_Get (h : Header) (k : string) : list string :=
  default [] (h !! k).

Definition Header_Add (canon : string -> string) (h : Header) (k v : string) : Header :=
  <[canon k := Header_Get h (canon k) ++ [v]]> h.

(** The inner loop of [copyHeaders]: [for _, v := range vv { dst.Add(k, v) }]. *)
Definition addValues (canon : string -> string) (k : string) (vv : list string)
    (dst : Header) : Header :=
  fold_left (fun d v => Header_Add canon d k v) vv dst.

(** [copyHeaders(dst, src)].  Go ranges over [src] in an unspecified order;
    the model ranges in the order of [map_fold]. *)
Definition copyHeaders (canon : string -> string) (dst src : Header) : Header :=
  map_fold (addValues canon) dst src.

(** ** Requests *)

(** What [Request.Body] points to: either the stream owned by the host
    listener, or the rewindable buffer the Streamer created for this
    request (a shared object kept in the world).  Requests are as a server
    hands them to a handler: body and URL are set. *)
Inductive ReadCloser : Type :=
| HostBody (content : list byte)
| BufferBody.

Record Request : Type := {
  Method : string;
  URL : string;
  ReqHeader : Header;
  ContentLength : Z;
  TransferEncoding : list string;
  Body : ReadCloser;
}.

(** ** The real response writer

    The [http.ResponseWriter] handed to [ServeHTTP] belongs to the host
    server.  It is modelled as a recorder: its header map, the codes passed
    to [WriteHeader] in call order, and all bytes passed to [Write]. *)
Record ResponseWriter : Type := {
  rw_header : Header;
  rw_codes : list Z;
  rw_body : list byte;
}.

Definition rw_WriteHeader (w : ResponseWriter) (code : Z) : ResponseWriter :=
  {| rw_header := rw_header w; rw_codes := rw_codes w ++ [code]; rw_body := rw_body w |}.

Definition rw_Write (w : ResponseWriter) (buf : list byte) : ResponseWriter :=
  {| rw_header := rw_header w; rw_codes := rw_codes w; rw_body := rw_body w ++ buf |}.

Definition rw_setHeader (w : ResponseWriter) (h : Header) : ResponseWriter :=
  {| rw_header := h; rw_codes := rw_codes w; rw_body := rw_body w |}.

(** ** Collaborators from [utils] and the retry predicate *)

Inductive utils_Logger : Type :=
| NullLogger
| UserLogger (name : string).

Inductive LogLevel : Type := INFO | ERROR.

(** [utils.ErrorHandler]: [ServeHTTP(w, req, err)] acting on the writer. *)
Definition utils_ErrorHandler : Type :=
  ResponseWriter -> Request -> option error -> ResponseWriter.

(** The retry context handed to a predicate. *)
Record context : Type := {
  ctx_r : Request;
  ctx_attempt : Z;
  ctx_responseCode : Z;
  ctx_log : option utils_Logger;
}.

Definition hpredicate : Type := context -> bool.

(** Parts of the repository and of the host library that [stream.go] calls
    but does not define. *)
Class Host : Type := {
  (* net/http: CanonicalHeaderKey, used by Header.Add *)
  CanonicalHeaderKey : string -> string;
  (* utils.CopyURL *)
  utils_CopyURL : string -> string;
  (* utils.CopyHeaders(dst, src) *)
  utils_CopyHeaders : Header -> Header -> Header;
  (* utils.DefaultHandler.ServeHTTP *)
  utils_DefaultHandler : utils_ErrorHandler;
  (* parseExpression, the predicate compiler *)
  parseExpression : string -> hpredicate + error;
}.

(** [SizeErrHandler.ServeHTTP] *)
Definition SizeErrHandler `{Host} : utils_ErrorHandler :=
  fun w req err =>
    if is_MaxSizeReachedError err then
      rw_Write (rw_WriteHeader w StatusRequestEntityTooLarge)
               (list_byte_of_string (StatusText StatusRequestEntityTooLarge))
    else utils_DefaultHandler w req err.

(** The package variable [errHandler]. *)
Definition pkg_errHandler `{Host} : utils_ErrorHandler := SizeErrHandler.

Section Stream.
Context {HState : Type} `{Host}.

(** ** The wrapped handler

    The wrapped [http.Handler] is opaque.  It is modelled as a program over
    the three operations of the response writer it is given, over reads of
    the request body and over assignments through the [*http.Request] it is
    handed; each answer of the writer or of the body is fed back to it.
    [HState] is the handler's private state, which outlives a single
    invocation.  Closing the request body is not among the operations: it
    is left to the caller, as [net/http] has it for handlers. *)
Inductive HandlerProg : Type :=
| HReturn (st : HState)
| HHeader (mutate : Header -> Header) (k : HandlerProg)          (* w.Header() and a mutation of the map *)
| HWriteHeader (code : Z) (k : HandlerProg)                      (* w.WriteHeader(code) *)
| HWrite (buf : list byte) (k : nat * option error -> HandlerProg) (* w.Write(buf) *)
| HRead (n : nat) (k : list byte -> HandlerProg)                 (* req.Body.Read of up to n bytes *)
| HRequest (mutate : Request -> Request) (k : HandlerProg).      (* assignments to fields of *req *)

Definition http_Handler : Type := HState -> Request -> HandlerProg.

(** ** Streamer *)

(** Streamer is responsible for streaming requests and responses.
    Interface-typed fields may be nil. *)
Record Streamer : Type := {
  maxRequestBodyBytes : Z;
  memRequestBodyBytes : Z;
  maxResponseBodyBytes : Z;
  memResponseBodyBytes : Z;
  retryPredicate : option hpredicate;
  next : option http_Handler;
  errHandler : option utils_ErrorHandler;
  log : option utils_Logger;
}.

Definition set_maxRequestBodyBytes (m : Z) (s : Streamer) : Streamer :=
  {| maxRequestBodyBytes := m; memRequestBodyBytes := memRequestBodyBytes s;
     maxResponseBodyBytes := maxResponseBodyBytes s; memResponseBodyBytes := memResponseBodyBytes s;
     retryPredicate := retryPredicate s; next := next s; errHandler := errHandler s; log := log s |}.

Definition set_memRequestBodyBytes (m : Z) (s : Streamer) : Streamer :=
  {| maxRequestBodyBytes := maxRequestBodyBytes s; memRequestBodyBytes := m;
     maxResponseBodyBytes := maxResponseBodyBytes s; memResponseBodyBytes := memResponseBodyBytes s;
     retryPredicate := retryPredicate s; next := next s; errHandler := errHandler s; log := log s |}.

Definition set_maxResponseBodyBytes (m : Z) (s : Streamer) : Streamer :=
  {| maxRequestBodyBytes := maxRequestBodyBytes s; memRequestBodyBytes := memRequestBodyBytes s;
     maxResponseBodyBytes := m; memResponseBodyBytes := memResponseBodyBytes s;
     retryPredicate := retryPredicate s; next := next s; errHandler := errHandler s; log := log s |}.

Definition set_memResponseBodyBytes (m : Z) (s : Streamer) : Streamer :=
  {| maxRequestBodyBytes := maxRequestBodyBytes s; memRequestBodyBytes := memRequestBodyBytes s;
     maxResponseBodyBytes := maxResponseBodyBytes s; memResponseBodyBytes := m;
     retryPredicate := retryPredicate s; next := next s; errHandler := errHandler s; log := log s |}.

Definition set_retryPredicate (p : option hpredicate) (s : Streamer) : Streamer :=
  {| maxRequestBodyBytes := maxRequestBodyBytes s; memRequestBodyBytes := memRequestBodyBytes s;
     maxResponseBodyBytes := maxResponseBodyBytes s; memResponseBodyBytes := memResponseBodyBytes s;
     retryPredicate := p; next := next s; errHandler := errHandler s; log := log s |}.

Definition set_next (h : option http_Handler) (s : Streamer) : Streamer :=
  {| maxRequestBodyBytes := maxRequestBodyBytes s; memRequestBodyBytes := memRequestBodyBytes s;
     maxResponseBodyBytes := maxResponseBodyBytes s; memResponseBodyBytes := memResponseBodyBytes s;
     retryPredicate := retryPredicate s; next := h; errHandler := errHandler s; log := log s |}.

Definition set_errHandler (h : option utils_ErrorHandler) (s : Streamer) : Streamer :=
  {| maxRequestBodyBytes := maxRequestBodyBytes s; memRequestBodyBytes := memRequestBodyBytes s;
     maxResponseBodyBytes := maxResponseBodyBytes s; memResponseBodyBytes := memResponseBodyBytes s;
     retryPredicate := retryPredicate s; next := next s; errHandler := h; log := log s |}.

Definition set_log (l : option utils_Logger) (s : Streamer) : Streamer :=
  {| maxRequestBodyBytes := maxRequestBodyBytes s; memRequestBodyBytes := memRequestBodyBytes s;
     maxResponseBodyBytes := maxResponseBodyBytes s; memResponseBodyBytes := memResponseBodyBytes s;
     retryPredicate := retryPredicate s; next := next s; errHandler := errHandler s; log := l |}.

(** [type optSetter func(s *Streamer) error]: the Streamer after the call
    and the returned error. *)
Definition optSetter : Type := Streamer -> Streamer * option error.

(** Retry provides a predicate that allows stream middleware to replay the
    request if it matches certain condition. *)
Definition Retry (predicate : string) : optSetter :=
  fun s =>
    match parseExpression predicate with
    | inr err => (s, Some err)
    | inl p => (set_retryPredicate (Some p) s, None)
    end.

(** Logger sets the logger that will be used by this middleware. *)
Definition Logger (l : option utils_Logger) : optSetter :=
  fun s => (set_log l s, None).

(** ErrorHandler sets error handler of the server *)
Definition ErrorHandler (h : option utils_ErrorHandler) : optSetter :=
  fun s => (set_errHandler h s, None).

(** MaxRequestBodyBytes sets the maximum request body size in bytes *)
Definition MaxRequestBodyBytes (m : Z) : optSetter :=
  fun s =>
    if m <? 0 then (s, Some (Errorf "max bytes should be >= 0 got %d" m))
    else (set_maxRequestBodyBytes m s, None).

(** MemRequestBodyBytes sets the maximum request body to be stored in memory *)
Definition MemRequestBodyBytes (m : Z) : optSetter :=
  fun s =>
    if m <? 0 then (s, Some (Errorf "mem bytes should be >= 0 got %d" m))
    else (set_memRequestBodyBytes m s, None).

(** MaxResponseBodyBytes sets the maximum response body size in bytes *)
Definition MaxResponseBodyBytes (m : Z) : optSetter :=
  fun s =>
    if m <? 0 then (s, Some (Errorf "max bytes should be >= 0 got %d" m))
    else (set_maxResponseBodyBytes m s, None).

(** MemResponseBodyBytes sets the maximum response body to be stored in memory *)
Definition MemResponseBodyBytes (m : Z) : optSetter :=
  fun s =>
    if m <? 0 then (s, Some (Errorf "mem bytes should be >= 0 got %d" m))
    else (set_memResponseBodyBytes m s, None).

(** The loop of [New]: [for _, s := range setters { if err := s(strm); err != nil { return nil, err } }]. *)
Fixpoint applySetters (setters : list optSetter) (strm : Streamer) : Streamer * option error :=
  match setters with
  | [] => (strm, None)
  | s :: rest =>
      match s strm with
      | (strm', None) => applySetters rest strm'
      | (strm', Some err) => (strm', Some err)
      end
  end.

(** New returns a new streamer middleware. *)
Definition New (next_ : option http_Handler) (setters : list optSetter)
    : option Streamer * option error :=
  let strm :=
    {| next := next_;
       maxRequestBodyBytes := DefaultMaxBodyBytes;
       memRequestBodyBytes := DefaultMemBodyBytes;
       maxResponseBodyBytes := DefaultMaxBodyBytes;
       memResponseBodyBytes := DefaultMemBodyBytes;
       retryPredicate := None; errHandler := None; log := None |} in
  match applySetters setters strm with
  | (_, Some err) => (None, Some err)
  | (strm, None) =>
      let strm :=
        match errHandler strm with
        | None => set_errHandler (Some pkg_errHandler) strm
        | Some _ => strm
        end in
      let strm :=
        match log strm with
        | None => set_log (Some NullLogger) strm
        | Some _ => strm
        end in
      (Some strm, None)
  end.

(** Wrap sets the next handler to be called by stream handler. *)
Definition Wrap (s : Streamer) (next_ : option http_Handler) : Streamer * option error :=
  (set_next next_ s, None).

(** ** Buffers of the [multibuf] library

    [multibuf] is an external library, consumed through a narrow contract.
    A [MultiReader] holds the whole buffered body and a read cursor; a
    [WriterOnce] collects the bytes written to it, up to its limit, and
    remembers whether anything was written at all: its [Reader] has
    nothing to hand over otherwise. *)

Record MultiReader : Type := {
  mr_data : list byte;
  mr_pos : nat;
}.

(** The bytes a reader of the buffer gets from the current cursor on. *)
Definition mr_remaining (m : MultiReader) : list byte :=
  drop (mr_pos m) (mr_data m).

(** [Read] of up to [n] bytes: the bytes read and the advanced buffer. *)
Definition mr_Read (m : MultiReader) (n : nat) : list byte * MultiReader :=
  (take n (mr_remaining m),
   {| mr_data := mr_data m; mr_pos := Nat.min (length (mr_data m)) (mr_pos m + n) |}).

(** [Seek(0, 0)] *)
Definition mr_Seek0 (m : MultiReader) : MultiReader :=
  {| mr_data := mr_data m; mr_pos := 0 |}.

(** [Size()] *)
Definition mr_Size (m : MultiReader) : Z := Z.of_nat (length (mr_data m)).

Record WriterOnce : Type := {
  wo_maxBytes : Z;
  wo_memBytes : Z;
  wo_data : list byte;
  wo_written : bool;   (* a Write was accepted *)
}.

(** [Write(p)]: refused as a whole once the limit would be exceeded. *)
Definition wo_Write (wr : WriterOnce) (p : list byte) : WriterOnce * (nat * option error) :=
  if (0 <? wo_maxBytes wr) && (wo_maxBytes wr <? Z.of_nat (length p + length (wo_data wr))) then
    (wr, (0%nat, Some (MaxSizeReachedError (wo_maxBytes wr))))
  else
    ({| wo_maxBytes := wo_maxBytes wr; wo_memBytes := wo_memBytes wr;
        wo_data := wo_data wr ++ p; wo_written := true |}, (length p, None)).

(** Failures of the buffer library that do not depend on the program
    (storage exhausted, broken input stream, ...).  [None] everywhere is a
    run without such failures. *)
Record Faults : Type := {
  (* multibuf.New returns no buffer, with this error (possibly nil) *)
  f_New : option (option error);
  (* body.Size() *)
  f_Size : option error;
  (* multibuf.NewWriterOnce, by attempt *)
  f_NewWriterOnce : Z -> option error;
  (* writer.Reader() on a writer that was written to, by attempt *)
  f_Reader : Z -> option error;
  (* body.Seek(0, 0), by the attempt about to start *)
  f_Seek : Z -> option error;
}.

(** ** bufferWriter *)

Record bufferWriter : Type := {
  header : Header;
  code : Z;
  buffer : WriterOnce;
}.

Definition bufferWriter_Header (b : bufferWriter) : Header := header b.

(** The handler mutates the map returned by [Header()] in place. *)
Definition bufferWriter_mutateHeader (b : bufferWriter) (f : Header -> Header) : bufferWriter :=
  {| header := f (bufferWriter_Header b); code := code b; buffer := buffer b |}.

Definition bufferWriter_Write (b : bufferWriter) (buf : list byte)
    : bufferWriter * (nat * option error) :=
  let '(wr, res) := wo_Write (buffer b) buf in
  ({| header := header b; code := code b; buffer := wr |}, res).

(** WriteHeader sets rw.Code. *)
Definition bufferWriter_WriteHeader (b : bufferWriter) (c : Z) : bufferWriter :=
  {| header := header b; code := c; buffer := buffer b |}.

(** One invocation of the wrapped handler, run against its response writer
    [b], the request buffer [m] and the request [o] it was handed; all
    three are objects it reaches through pointers, and they come back as the
    handler left them. *)
Fixpoint run_handler (p : HandlerProg) (b : bufferWriter) (m : MultiReader) (o : Request)
    : HState * bufferWriter * MultiReader * Request :=
  match p with
  | HReturn st => (st, b, m, o)
  | HHeader f k => run_handler k (bufferWriter_mutateHeader b f) m o
  | HWriteHeader c k => run_handler k (bufferWriter_WriteHeader b c) m o
  | HWrite buf k =>
      let '(b', res) := bufferWriter_Write b buf in run_handler (k res) b' m o
  | HRead n k =>
      let '(bytes, m') := mr_Read m n in run_handler (k bytes) b m' o
  | HRequest f k => run_handler k b m (f o)
  end.

(** ** World, trace and control *)

Inductive Resource : Type :=
| ResBody                  (* the request buffer *)
| ResWriter (attempt : Z)  (* the bufferWriter of an attempt and its sink *)
| ResReader (attempt : Z). (* the reader over the captured response *)

#[global] Instance Resource_eq_dec : EqDecision Resource.
Proof. solve_decision. Defined.

Inductive Event : Type :=
| EvReadBody                                   (* multibuf.New reads req.Body *)
| EvOpen (r : Resource)
| EvClose (r : Resource)
| EvCall (attempt : Z) (outreq : Request) (body : MultiReader)
                                               (* s.next.ServeHTTP(b, outreq) is entered,
                                                  with the request buffer in this state *)
| EvReturn (attempt : Z) (b : bufferWriter)    (* ... and has returned *)
| EvPredicate (c : context)                    (* the retry predicate is evaluated *)
| EvSeek                                       (* body.Seek(0, 0) succeeded *)
| EvDeliver (attempt : Z)                      (* captured response copied to the real writer *)
| EvErrHandler (err : option error)            (* s.errHandler.ServeHTTP(w, req, err) *)
| EvLog (l : utils_Logger) (lvl : LogLevel) (format : string)
| EvPanic.                                     (* nil dereference *)

Record World : Type := {
  w_sink : ResponseWriter;        (* the real response writer w *)
  w_hstate : HState;              (* private state of the wrapped handler *)
  w_body : option MultiReader;    (* the request buffer, once created *)
  w_defers : list Resource;       (* deferred Close calls, last deferred first *)
  w_trace : list Event;           (* what happened so far, oldest first *)
}.

Definition initWorld (w : ResponseWriter) (st : HState) : World :=
  {| w_sink := w; w_hstate := st; w_body := None; w_defers := []; w_trace := [] |}.

Definition w_emit (e : Event) (w : World) : World :=
  {| w_sink := w_sink w; w_hstate := w_hstate w; w_body := w_body w;
     w_defers := w_defers w; w_trace := w_trace w ++ [e] |}.

Definition w_setSink (k : ResponseWriter) (w : World) : World :=
  {| w_sink := k; w_hstate := w_hstate w; w_body := w_body w;
     w_defers := w_defers w; w_trace := w_trace w |}.

Definition w_setBody (m : option MultiReader) (w : World) : World :=
  {| w_sink := w_sink w; w_hstate := w_hstate w; w_body := m;
     w_defers := w_defers w; w_trace := w_trace w |}.

Definition w_setHState (st : HState) (w : World) : World :=
  {| w_sink := w_sink w; w_hstate := st; w_body := w_body w;
     w_defers := w_defers w; w_trace := w_trace w |}.

Definition w_setDefers (ds : list Resource) (w : World) : World :=
  {| w_sink := w_sink w; w_hstate := w_hstate w; w_body := w_body w;
     w_defers := ds; w_trace := w_trace w |}.

(** A step of a method of [*Streamer] acts on the Streamer behind the
    receiver and on the world.  It either goes on with a value or leaves
    the function ([return] or a panic); receiver and world are kept in both
    cases. *)
Inductive Ctl (A : Type) : Type :=
| Go (a : A)
| Exit.
Arguments Go {A} a.
Arguments Exit {A}.

Definition M (A : Type) : Type := Streamer -> World -> Ctl A * Streamer * World.

#[global] Instance M_ret : MRet M := fun A a s w => (Go a, s, w).
#[global] Instance M_bind : MBind M := fun A B f m s w =>
  match m s w with
  | (Go a, s', w') => f a s' w'
  | (Exit, s', w') => (Exit, s', w')
  end.

(** A read of the receiver. *)
Definition self : M Streamer := fun s w => (Go s, s, w).

Definition emit (e : Event) : M unit := fun s w => (Go tt, s, w_emit e w).
Definition return_ {A} : M A := fun s w => (Exit, s, w).
Definition panic {A} : M A := fun s w => (Exit, s, w_emit EvPanic w).
Definition defer (r : Resource) : M unit :=
  fun s w => (Go tt, s, w_setDefers (r :: w_defers w) w).

(** Deferred calls run when the function is left, last deferred first. *)
Definition run_defers (w : World) : World :=
  w_setDefers [] (fold_left (fun w r => w_emit (EvClose r) w) (w_defers w) w).

(** ** Calls to collaborators *)

(** [s.log.Infof] / [s.log.Errorf] *)
Definition log_call (lvl : LogLevel) (format : string) : M unit :=
  fun s =>
    match log s with
    | Some l => emit (EvLog l lvl format) s
    | None => panic s
    end.

(** [s.errHandler.ServeHTTP(w, req, err)] *)
Definition errHandler_ServeHTTP (req : Request) (err : option error) : M unit :=
  fun s =>
    match errHandler s with
    | Some h =>
        fun w => (Go tt, s, w_emit (EvErrHandler err) (w_setSink (h (w_sink w) req err) w))
    | None => panic s
    end.

(** The bytes [multibuf.New] finds behind a request body. *)
Definition body_input (rc : ReadCloser) (w : World) : list byte :=
  match rc with
  | HostBody content => content
  | BufferBody => from_option mr_remaining [] (w_body w)
  end.

(** With what [multibuf.New] returns no buffer for an input of [len]
    bytes, if it does.  Apart from failures of its own, the library refuses
    an input over the limit: it keeps up to [memBytes] bytes in memory and
    spills the rest, and when a limit is set the spilled part may hold at
    most [maxBytes - memBytes] bytes, which is the bound its error reports.
    An input that stays in memory is not checked. *)
Definition New_error (flt : Faults) (maxBytes memBytes : Z) (len : Z)
    : option (option error) :=
  match f_New flt with
  | Some err => Some err
  | None =>
      if (0 <? maxBytes) && (memBytes <=? len) && (maxBytes <? len) then
        Some (Some (MaxSizeReachedError (maxBytes - memBytes)))
      else None
  end.

(** [multibuf.New(req.Body, MaxBytes(maxBytes), MemBytes(memBytes))]: reads
    the input; on success the buffer holds the whole input with its cursor
    at the start.  The result is whether a buffer came back, and the
    error. *)
Definition multibuf_New (flt : Faults) (rc : ReadCloser) (maxBytes memBytes : Z)
    : M (bool * option error) :=
  fun s w =>
    let input := body_input rc w in
    let w := w_emit EvReadBody w in
    match New_error flt maxBytes memBytes (Z.of_nat (length input)) with
    | Some err => (Go (false, err), s, w)
    | None =>
        (Go (true, None), s,
         w_emit (EvOpen ResBody) (w_setBody (Some {| mr_data := input; mr_pos := 0 |}) w))
    end.

(** [body.Size()] *)
Definition body_Size (flt : Faults) : M (Z * option error) :=
  fun s w =>
    match w_body w with
    | None => panic s w
    | Some m =>
        match f_Size flt with
        | Some err => (Go (0, Some err), s, w)
        | None => (Go (mr_Size m, None), s, w)
        end
    end.

(** [body.Seek(0, 0)] *)
Definition body_Seek0 (flt : Faults) (attempt : Z) : M (option error) :=
  fun s w =>
    match w_body w with
    | None => panic s w
    | Some m =>
        match f_Seek flt attempt with
        | Some err => (Go (Some err), s, w)
        | None => (Go None, s, w_emit EvSeek (w_setBody (Some (mr_Seek0 m)) w))
        end
    end.

(** [multibuf.NewWriterOnce(MaxBytes(maxBytes), MemBytes(memBytes))] *)
Definition multibuf_NewWriterOnce (flt : Faults) (attempt : Z) (maxBytes memBytes : Z)
    : M (WriterOnce + error) :=
  match f_NewWriterOnce flt attempt with
  | Some err => mret (inr err)
  | None =>
      emit (EvOpen (ResWriter attempt)) ;;
      mret (inl {| wo_maxBytes := maxBytes; wo_memBytes := memBytes;
                   wo_data := []; wo_written := false |})
  end.

(** The error of [writer.Reader()]: a writer nothing was written to has no
    data ready; one that holds data may still fail to hand it over. *)
Definition Reader_error (flt : Faults) (attempt : Z) (wr : WriterOnce) : option error :=
  if wo_written wr then f_Reader flt attempt
  else Some (OtherError "no data ready").

(** [writer.Reader()]: a reader over everything the writer accepted. *)
Definition writer_Reader (flt : Faults) (attempt : Z) (wr : WriterOnce)
    : M (list byte + error) :=
  match Reader_error flt attempt wr with
  | Some err => mret (inr err)
  | None => emit (EvOpen (ResReader attempt)) ;; mret (inl (wo_data wr))
  end.

(** [s.next.ServeHTTP(b, outreq)]: the handler runs against [b], reads the
    body of [outreq], which is the shared request buffer, and may assign
    through [outreq].  What comes back is [b] and [outreq] as the handler
    left them. *)
Definition next_ServeHTTP (attempt : Z) (b : bufferWriter) (outreq : Request)
    : M (bufferWriter * Request) :=
  fun s =>
    match next s with
    | None => panic s
    | Some h =>
        fun w =>
          match w_body w with
          | None => panic s w
          | Some m =>
              let w := w_emit (EvCall attempt outreq m) w in
              let '(st, b', m', outreq') := run_handler (h (w_hstate w) outreq) b m outreq in
              (Go (b', outreq'), s,
               w_emit (EvReturn attempt b') (w_setBody (Some m') (w_setHState st w)))
          end
    end.

(** The finalize branch: [copyHeaders(w.Header(), b.Header())],
    [w.WriteHeader(b.code)], [io.Copy(w, reader)]. *)
Definition deliver (attempt : Z) (b : bufferWriter) (reader : list byte) : M unit :=
  fun s w =>
    let k := w_sink w in
    let k := rw_setHeader k (copyHeaders CanonicalHeaderKey (rw_header k) (bufferWriter_Header b)) in
    let k := rw_WriteHeader k (code b) in
    let k := rw_Write k reader in
    (Go tt, s, w_emit (EvDeliver attempt) (w_setSink k w)).

(** ** The methods of Streamer *)

Definition copyRequest (s : Streamer) (req : Request) (body : ReadCloser) (bodySize : Z)
    : Request :=
  {| Method := Method req;
     URL := utils_CopyURL (URL req);
     ReqHeader := utils_CopyHeaders ∅ (ReqHeader req);
     ContentLength := bodySize;
     (* remove TransferEncoding that could have been previously set *)
     TransferEncoding := [];
     Body := body |}.

Definition checkLimit (s : Streamer) (req : Request) : option error :=
  if maxRequestBodyBytes s <=? 0 then None
  else if maxRequestBodyBytes s <? ContentLength req then
    Some (MaxSizeReachedError (maxRequestBodyBytes s))
  else None.

(** The condition of the finalize branch.  The predicate is only called
    when it is set and the attempt counter is within the ceiling. *)
Definition finalizes (req : Request) (attempt : Z) (b : bufferWriter) : M bool :=
  s ← self;
  match retryPredicate s with
  | None => mret true
  | Some p =>
      if DefaultMaxRetryAttempts <? attempt then mret true
      else
        let c := {| ctx_r := req; ctx_attempt := attempt;
                    ctx_responseCode := code b; ctx_log := log s |} in
        emit (EvPredicate c) ;; mret (negb (p c))
  end.

(** One pass through the body of the [for] loop of [ServeHTTP].  [Go]
    carries the attempt counter and the request of the next pass. *)
Definition attemptBody (flt : Faults) (req : Request) (totalSize : Z)
    (attempt : Z) (outreq : Request) : M (Z * Request) :=
  s ← self;
  (* We create a special writer that will limit the response size *)
  r ← multibuf_NewWriterOnce flt attempt (maxResponseBodyBytes s) (memResponseBodyBytes s);
  match r with
  | inr err => errHandler_ServeHTTP req (Some err) ;; return_
  | inl writer =>
      (* We are mimicking http.ResponseWriter to replace writer with our special writer *)
      let b := {| header := ∅; code := 0; buffer := writer |} in
      defer (ResWriter attempt) ;;
      '(b, outreq) ← next_ServeHTTP attempt b outreq;
      log_call INFO "next responded: %v" ;;
      r ← writer_Reader flt attempt (buffer b);
      match r with
      | inr err =>
          log_call ERROR "failed to read response, err %v" ;;
          errHandler_ServeHTTP req (Some err) ;; return_
      | inl reader =>
          defer (ResReader attempt) ;;
          fin ← finalizes req attempt b;
          if fin : bool then
            deliver attempt b reader ;; return_
          else
            let attempt := attempt + 1 in
            err ← body_Seek0 flt attempt;
            match err with
            | Some err =>
                log_call ERROR "Failed to rewind: error: %v" ;;
                errHandler_ServeHTTP req (Some err) ;; return_
            | None =>
                s ← self;
                let outreq := copyRequest s req BufferBody totalSize in
                log_call INFO "retry Request(%v %v) attempt %v" ;;
                mret (attempt, outreq)
            end
      end
  end.

(** The [for] loop of [ServeHTTP], from the pass numbered [attempt] on.  It
    is left by a [return] only. *)
Equations? attemptLoop (flt : Faults) (req : Request) (totalSize : Z)
    (attempt : Z) (outreq : Request) (s : Streamer) (w : World) : Ctl unit * Streamer * World
    by wf (Z.to_nat (DefaultMaxRetryAttempts + 1 - attempt)) lt :=
  attemptLoop flt req totalSize attempt outreq s w
    with inspect (attemptBody flt req totalSize attempt outreq s w) := {
    | exist _ (Go (attempt', outreq'), s', w') Hpass =>
        attemptLoop flt req totalSize attempt' outreq' s' w'
    | exist _ (Exit, s', w') _ => (Exit, s', w') }.
Proof.
  (* a pass that asks for another one was within the retry ceiling and has
     incremented the counter *)
  revert Hpass.
  unfold attemptBody, self, mbind, M_bind, mret, M_ret, return_.
  repeat (match goal with
          | |- context [match ?x with _ => _ end] => destruct x eqn:?
          end; try discriminate).
  intros [= <- <- <- <-].
  match goal with Hfin : finalizes _ _ _ ?r _ = _ |- _ =>
    unfold finalizes, self, mbind, M_bind, mret, M_ret in Hfin;
    destruct (retryPredicate r); [|discriminate]
  end.
  destruct (DefaultMaxRetryAttempts <? attempt) eqn:Hlt; [discriminate|].
  apply Z.ltb_ge in Hlt. lia.
Qed.

(** The body of [ServeHTTP], up to the point where the function is left. *)
Definition ServeHTTP_body (flt : Faults) (req : Request) : M unit :=
  s ← self;
  match checkLimit s req with
  | Some err =>
      log_call INFO "request body over limit: %v" ;;
      errHandler_ServeHTTP req (Some err) ;; return_
  | None =>
      (* Read the body while keeping limits in mind. *)
      '(body, err) ← multibuf_New flt (Body req) (maxRequestBodyBytes s) (memRequestBodyBytes s);
      if negb (bool_decide (err = None :> option error)) || negb body then
        errHandler_ServeHTTP req err ;; return_
      else
        defer ResBody ;;
        (* We need to set ContentLength based on known request size. *)
        '(totalSize, err) ← body_Size flt;
        match err with
        | Some err =>
            log_call ERROR "failed to get size, err %v" ;;
            errHandler_ServeHTTP req (Some err) ;; return_
        | None =>
            s ← self;
            let outreq := copyRequest s req BufferBody totalSize in
            attemptLoop flt req totalSize 1 outreq
        end
  end.

(** [s.ServeHTTP(w, req)]: the body, then the deferred calls, which act on
    buffers of the library only.  The result is the world after the call;
    [ServeHTTP_receiver] is the Streamer after it. *)
Definition ServeHTTP (s : Streamer) (flt : Faults) (req : Request) (w : World) : World :=
  run_defers (snd (ServeHTTP_body flt req s w)).

Definition ServeHTTP_receiver (s : Streamer) (flt : Faults) (req : Request) (w : World)
    : Streamer :=
  snd (fst (ServeHTTP_body flt req s w)).

(** The exported constructors of options.  The closure each returns can be
    applied to a Streamer at any time, also after [New] has returned. *)
Inductive OptionCall : Type :=
| OptRetry (predicate : string)
| OptLogger (l : option utils_Logger)
| OptErrorHandler (h : option utils_ErrorHandler)
| OptMaxRequestBodyBytes (m : Z)
| OptMemRequestBodyBytes (m : Z)
| OptMaxResponseBodyBytes (m : Z)
| OptMemResponseBodyBytes (m : Z).

Definition option_closure (o : OptionCall) : optSetter :=
  match o with
  | OptRetry predicate => Retry predicate
  | OptLogger l => Logger l
  | OptErrorHandler h => ErrorHandler h
  | OptMaxRequestBodyBytes m => MaxRequestBodyBytes m
  | OptMemRequestBodyBytes m => MemRequestBodyBytes m
  | OptMaxResponseBodyBytes m => MaxResponseBodyBytes m
  | OptMemResponseBodyBytes m => MemResponseBodyBytes m
  end.

(** The exported operations that are handed a constructed [*Streamer]: its
    two methods and the option closures, and the Streamer after each. *)
Inductive ExportedCall : Type :=
| CallWrap (next_ : option http_Handler)
| CallServeHTTP (flt : Faults) (req : Request) (w : World)
| CallOption (o : OptionCall).

Definition receiver_after (s : Streamer) (c : ExportedCall) : Streamer :=
  match c with
  | CallWrap next_ => fst (Wrap s next_)
  | CallServeHTTP flt req w => ServeHTTP_receiver s flt req w
  | CallOption o => fst (option_closure o s)
  end.

(** ** Reading a trace *)

(** The body bytes of an inbound request, as a fresh [ServeHTTP] finds
    them. *)
Definition inbound_bytes (req : Request) : list byte :=
  match Body req with
  | HostBody content => content
  | BufferBody => []
  end.

(** Number of invocations of the wrapped handler. *)
Fixpoint invocations (tr : list Event) : nat :=
  match tr with
  | [] => 0
  | EvCall _ _ _ :: tr => S (invocations tr)
  | _ :: tr => invocations tr
  end.

Definition is_close (e : Event) : bool :=
  match e with EvClose _ => true | _ => false end.

(** The response codes the retry predicate was shown, in order. *)
Fixpoint observed_codes (tr : list Event) : list Z :=
  match tr with
  | [] => []
  | EvPredicate c :: tr => ctx_responseCode c :: observed_codes tr
  | _ :: tr => observed_codes tr
  end.

(** The resources opened in [tr], in order. *)
Fixpoint opens (tr : list Event) : list Resource :=
  match tr with
  | [] => []
  | EvOpen r :: tr => r :: opens tr
  | _ :: tr => opens tr
  end.

(** What the finalize branch makes of the real writer [k] and the capture
    [b] of the delivered attempt. *)
Definition delivered (k : ResponseWriter) (b : bufferWriter) : ResponseWriter :=
  rw_Write
    (rw_WriteHeader
       (rw_setHeader k (copyHeaders CanonicalHeaderKey (rw_header k) (header b)))
       (code b))
    (wo_data (buffer b)).

(** [b] is what an invocation of the wrapped handler left of a bufferWriter
    that started with an empty header map, no status code and an empty
    sink. *)
Definition captured_fresh (s : Streamer) (b : bufferWriter) : Prop :=
  exists (h : http_Handler) (st : HState) (outreq : Request) (m : MultiReader),
    next s = Some h /\
    b = snd (fst (fst (run_handler (h st outreq)
          {| header := ∅; code := 0;
             buffer := {| wo_maxBytes := maxResponseBodyBytes s;
                          wo_memBytes := memResponseBodyBytes s;
                          wo_data := []; wo_written := false |} |} m outreq))).

(** What holds of the resources whenever the function is about to be
    left: nothing was closed yet, the deferred calls are the opened
    resources, last opened first, and nothing was opened twice. *)
Definition resources_pending (w : World) : Prop :=
  (forall r, ~ In (EvClose r) (w_trace w)) /\
  w_defers w = rev (opens (w_trace w)) /\
  NoDup (opens (w_trace w)).

(** The attempt a resource belongs to; the request buffer precedes all
    attempts. *)
Definition res_attempt (r : Resource) : Z :=
  match r with
  | ResBody => 0
  | ResWriter attempt => attempt
  | ResReader attempt => attempt
  end.

(** The resources that are open after the events of [tr]. *)
Definition open_after (tr : list Event) : list Resource :=
  fold_left
    (fun acc e =>
       match e with
       | EvOpen r => r :: acc
       | EvClose r => List.remove Resource_eq_dec r acc
       | _ => acc
       end) tr [].

(** Events that produce the response: a delivery or a call of the error
    handler. *)
Definition is_response (e : Event) : bool :=
  match e with
  | EvDeliver _ | EvErrHandler _ => true
  | _ => false
  end.

(** Number of responses produced. *)
Fixpoint responses (tr : list Event) : nat :=
  match tr with
  | [] => 0
  | e :: tr => ((if is_response e then 1 else 0) + responses tr)%nat
  end.

(** The attempt numbers of the invocations of the wrapped handler, in
    order. *)
Fixpoint call_attempts (tr : list Event) : list Z :=
  match tr with
  | [] => []
  | EvCall attempt _ _ :: tr => attempt :: call_attempts tr
  | _ :: tr => call_attempts tr
  end.

(** The world in which the loop is entered: the body is buffered, its
    release is deferred, nothing else has happened. *)
Definition loop_entry (k : ResponseWriter) (st : HState) (req : Request) : World :=
  {| w_sink := k; w_hstate := st;
     w_body := Some {| mr_data := inbound_bytes req; mr_pos := 0 |};
     w_defers := [ResBody];
     w_trace := [EvReadBody; EvOpen ResBody] |}.

(** A bufferWriter as the loop creates it for an attempt. *)
Definition fresh_capture_of (s : Streamer) : bufferWriter :=
  {| header := ∅; code := 0;
     buffer := {| wo_maxBytes := maxResponseBodyBytes s;
                  wo_memBytes := memResponseBodyBytes s;
                  wo_data := []; wo_written := false |} |}.

(** What the first invocation leaves when the wrapped handler is [h] in
    state [st]: the handler is run on the reframed request, a fresh capture
    and the buffered body from offset 0. *)
Definition first_invocation (s : Streamer) (h : http_Handler) (st : HState) (req : Request)
    : HState * bufferWriter * MultiReader * Request :=
  let outreq := copyRequest s req BufferBody (Z.of_nat (length (inbound_bytes req))) in
  run_handler (h st outreq) (fresh_capture_of s)
    {| mr_data := inbound_bytes req; mr_pos := 0 |} outreq.

(** How the body of the function can end: with the response as its last
    event, or in a nil dereference before any response. *)
Definition ends_with_response (tr : list Event) : Prop :=
  (exists pre e,
      tr = pre ++ [e] /\ is_response e = true /\
      responses pre = 0%nat /\ ~ In EvPanic pre) \/
  (exists pre, tr = pre ++ [EvPanic] /\ responses pre = 0%nat).

(** The contexts in [tr] are built from the inbound request, the logger
    and the attempt that just returned. *)
Definition contexts_follow_returns (s : Streamer) (req : Request)
    (tr : list Event) : Prop :=
  forall c, In (EvPredicate c) tr ->
    ctx_r c = req /\ ctx_log c = log s /\
    1 <= ctx_attempt c <= DefaultMaxRetryAttempts /\
    is_Some (retryPredicate s) /\
    exists b, In (EvReturn (ctx_attempt c) b) tr /\ ctx_responseCode c = code b.

(** Attempt [a] was asked for: it is the first one, or the configured
    predicate answered true for attempt [a - 1]. *)
Definition retry_requested (s : Streamer) (tr : list Event) (a : Z) : Prop :=
  a = 1 \/
  exists p c,
    retryPredicate s = Some p /\ In (EvPredicate c) tr /\
    ctx_attempt c = a - 1 /\ p c = true.

(** Every invocation in [tr] was asked for. *)
Definition calls_requested (s : Streamer) (tr : list Event) : Prop :=
  forall a o m, In (EvCall a o m) tr -> retry_requested s tr a.





End Stream.

Arguments Go {A} a.
Arguments Exit {A}.
Arguments HandlerProg : clear implicits.
Arguments http_Handler : clear implicits.
Arguments Streamer : clear implicits.
Arguments World : clear implicits.

(** ** Scenarios *)

(** Modelled from the spec: the evaluator that the predicate compiler
    ([parseExpression], not part of [stream.go]) yields for
    [Attempts() <= 2 && ResponseCode() == 502], where [Attempts()] is the
    1-based attempt number and [ResponseCode()] the status of the attempt
    that just completed. *)
Definition attempts_le_2_and_502 : hpredicate :=
  fun c => (ctx_attempt c <=? 2) && (ctx_responseCode c =? 502).

(** Modelled from the spec: the evaluator of [Attempts() <= 100], a
    predicate that asks for a retry on each of the first hundred attempts. *)
Definition attempts_le_100 : hpredicate :=
  fun c => ctx_attempt c <=? 100.

(** At every point of [tr], at most one attempt has its bufferWriter
    open. *)
Definition one_capture_open_at_a_time (tr : list Event) : Prop :=
  forall pre post a1 a2,
    tr = pre ++ post ->
    In (ResWriter a1) (open_after pre) ->
    In (ResWriter a2) (open_after pre) ->
    a1 = a2.

(** The buffer library never fails for a reason of its own. *)
Definition no_faults (flt : Faults) : Prop :=
  f_New flt = None /\ f_Size flt = None /\
  (forall attempt, f_NewWriterOnce flt attempt = None) /\
  (forall attempt, f_Reader flt attempt = None) /\
  (forall attempt, f_Seek flt attempt = None).

(** The request is within the request limit, by its declared length and
    by the length of its body. *)
Definition within_limit {HState : Type} (s : Streamer HState) (req : Request) : Prop :=
  maxRequestBodyBytes s <= 0 \/
  (ContentLength req <= maxRequestBodyBytes s /\
   Z.of_nat (length (inbound_bytes req)) <= maxRequestBodyBytes s).

(** However it is called, the handler leaves [c] as the status code of its
    response writer. *)
Definition always_sets {HState : Type} (h : http_Handler HState) (c : Z) : Prop :=
  forall st outreq b m,
    code (snd (fst (fst (run_handler (h st outreq) b m outreq)))) = c.

(** However it is called, the handler writes at least one byte of body to
    a response writer that has no size limit. *)
Definition always_writes {HState : Type} (h : http_Handler HState) : Prop :=
  forall st outreq b m,
    wo_maxBytes (buffer b) <= 0 ->
    wo_data (buffer (snd (fst (fst (run_handler (h st outreq) b m outreq))))) <> [].

(** ** Concrete collaborators, handlers and requests

    Used to run the model on explicit inputs. *)
Module Sample.

(** Two retry expressions. *)
Definition retry502 : string := "Attempts() <= 2 && ResponseCode() == 502".
Definition retry100 : string := "Attempts() <= 100".

(** A host whose canonical header keys are the keys themselves, whose
    default error mapping answers 500 and whose predicate compiler knows
    the two expressions above. *)
Definition host : Host := {|
  CanonicalHeaderKey := fun k => k;
  utils_CopyURL := fun u => u;
  utils_CopyHeaders := copyHeaders (fun k => k);
  utils_DefaultHandler := fun w _ _ =>
    rw_Write (rw_WriteHeader w 500) (list_byte_of_string (StatusText 500));
  parseExpression := fun e =>
    if String.eqb e retry502 then inl attempts_le_2_and_502
    else if String.eqb e retry100 then inl attempts_le_100
    else inr (OtherError "unsupported expression");
|}.

Definition noFaults : Faults := {|
  f_New := None; f_Size := None;
  f_NewWriterOnce := fun _ => None; f_Reader := fun _ => None; f_Seek := fun _ => None;
|}.

(** A handler that reads two bytes of the body, sets a header and answers
    502; its state counts its invocations. *)
Definition always502 : http_Handler nat :=
  fun st _ =>
    HRead 2 (fun _ =>
    HHeader (fun h => <["X-Try" := ["again"]]> h)
    (HWriteHeader 502
    (HWrite (list_byte_of_string "bad gateway") (fun _ => HReturn (S st))))).

(** A handler that only sets the status: [w.WriteHeader(502)]. *)
Definition bare502 : http_Handler nat :=
  fun st _ => HWriteHeader 502 (HReturn (S st)).

(** A handler that assigns through the request it is handed before it
    answers 502 with a body: it drops the body, declares a length of 0 and
    changes the method. *)
Definition meddling502 : http_Handler nat :=
  fun st _ =>
    HRead 2 (fun _ =>
    HRequest (fun r => {| Method := "HEAD"; URL := URL r; ReqHeader := ReqHeader r;
                          ContentLength := 0; TransferEncoding := ["identity"];
                          Body := HostBody [] |})
    (HWriteHeader 502
    (HWrite (list_byte_of_string "bad gateway") (fun _ => HReturn (S st))))).

(** The handler of the package documentation: [w.Write([]byte("hello"))]. *)
Definition hello : http_Handler nat :=
  fun st _ => HWrite (list_byte_of_string "hello") (fun _ => HReturn (S st)).

(** An error handler supplied through the [ErrorHandler] option. *)
Definition teapot : utils_ErrorHandler :=
  fun w _ _ => rw_WriteHeader w 418.

(** A chunked request of five bytes. *)
Definition chunked : Request := {|
  Method := "POST"; URL := "/upload"; ReqHeader := ∅;
  ContentLength := -1; TransferEncoding := ["chunked"];
  Body := HostBody (list_byte_of_string "hello");
|}.

(** A request that declares ten bytes. *)
Definition declared10 : Request := {|
  Method := "POST"; URL := "/upload"; ReqHeader := ∅;
  ContentLength := 10; TransferEncoding := [];
  Body := HostBody (list_byte_of_string "0123456789");
|}.

Definition fresh : ResponseWriter := {| rw_header := ∅; rw_codes := []; rw_body := [] |}.

(** The zero value [Streamer{}]. *)
Definition zero : Streamer nat := {|
  maxRequestBodyBytes := 0; memRequestBodyBytes := 0;
  maxResponseBodyBytes := 0; memResponseBodyBytes := 0;
  retryPredicate := None; next := None; errHandler := None; log := None;
|}.

(** The Streamer that [New(h, setters...)] returns under [host]; the zero
    value stands in when construction fails. *)
Definition build (h : http_Handler nat) (setters : list (@optSetter nat)) : Streamer nat :=
  match @New nat host (Some h) setters with
  | (Some s, _) => s
  | (None, _) => zero
  end.

(** The capture of the third attempt of [always502]. *)
Definition third_capture : bufferWriter := {|
  header := {["X-Try" := ["again"]]};
  code := 502;
  buffer := {| wo_maxBytes := DefaultMaxBodyBytes; wo_memBytes := DefaultMemBodyBytes;
               wo_data := list_byte_of_string "bad gateway"; wo_written := true |};
|}.

(** A Streamer whose predicate asks for a retry every time. *)
Definition eager : Streamer nat :=
  set_retryPredicate (Some (fun _ => true)) (build always502 []).

(** A buffer library whose rewind before the second attempt fails. *)
Definition seekFails : Faults := {|
  f_New := None; f_Size := None;
  f_NewWriterOnce := fun _ => None; f_Reader := fun _ => None;
  f_Seek := fun attempt => if attempt =? 2 then Some (OtherError "seek") else None;
|}.

(** The context of the second evaluation of the predicate when [always502]
    handles [chunked]. *)
Definition second_context : context := {|
  ctx_r := chunked; ctx_attempt := 2; ctx_responseCode := 502;
  ctx_log := Some NullLogger;
|}.

End Sample.

(** * Properties *)

Section Properties.
Context {HState : Type} `{Host}.

Implicit Types (s : Streamer HState) (w : World HState) (tr : list Event).

#[local] Opaque attemptLoop.

(** ** Construction *)

Lemma applySetters_app (pre post : list optSetter) s :
  applySetters (pre ++ post) s =
  match applySetters pre s with
  | (s', None) => applySetters post s'
  | (s', Some err) => (s', Some err)
  end.
Proof.
  revert s. induction pre as [|f pre IH]; intros s; simpl.
  - reflexivity.
  - destruct (f s) as [s' [err|]]; [reflexivity|]. apply IH.
Qed.

(** A Streamer that [New] returns has its error handler and its logger
    set, whatever the options were. *)
Lemma New_sets_collaborators (next_ : option (http_Handler HState))
    (setters : list optSetter) s :
  New next_ setters = (Some s, None) ->
  is_Some (errHandler s) /\ is_Some (log s).
Proof.
  unfold New.
  destruct (applySetters setters _) as [s' [err|]]; [discriminate|].
  intros [= <-].
  destruct (errHandler s') eqn:He, (log s') eqn:Hl; cbn; rewrite ?He, ?Hl; eauto.
Qed.

(** C10. Each of the four size setters fails exactly on a negative argument
    (zero is accepted), and [New] hands back the error of the first setter
    that fails, together with no Streamer. *)
Theorem setters_reject_negative_and_New_propagates :
  (forall (m : Z) s,
      (snd (MaxRequestBodyBytes m s) <> None <-> m < 0) /\
      (snd (MemRequestBodyBytes m s) <> None <-> m < 0) /\
      (snd (MaxResponseBodyBytes m s) <> None <-> m < 0) /\
      (snd (MemResponseBodyBytes m s) <> None <-> m < 0)) /\
  (forall (next_ : option (http_Handler HState)) (pre post : list optSetter)
          (f : optSetter) s1 s2 err,
      applySetters pre
        {| next := next_;
           maxRequestBodyBytes := DefaultMaxBodyBytes;
           memRequestBodyBytes := DefaultMemBodyBytes;
           maxResponseBodyBytes := DefaultMaxBodyBytes;
           memResponseBodyBytes := DefaultMemBodyBytes;
           retryPredicate := None; errHandler := None; log := None |} = (s1, None) ->
      f s1 = (s2, Some err) ->
      New next_ (pre ++ f :: post) = (None, Some err)).
Proof.
  split.
  - intros m s.
    unfold MaxRequestBodyBytes, MemRequestBodyBytes, MaxResponseBodyBytes,
      MemResponseBodyBytes.
    destruct (Z.ltb_spec m 0); simpl; repeat split; intros; try lia; congruence.
  - intros next_ pre post f s1 s2 err Hpre Hf.
    unfold New. rewrite applySetters_app, Hpre. simpl. rewrite Hf. reflexivity.
Qed.

(** ** The limit check *)

(** C3 (amended). When the declared content length exceeds a configured
    positive [maxRequestBodyBytes], [ServeHTTP] logs, hands a
    [MaxSizeReachedError] to the configured error handler and returns:
    the wrapped handler is not invoked and no byte of the body is read.
    The response is the error handler's; the default [SizeErrHandler]
    answers 413 with the standard reason phrase as body. *)
Theorem over_limit_request_goes_to_error_handler s flt req (k : ResponseWriter)
    (st : HState) (l : utils_Logger) (h : utils_ErrorHandler) :
  0 < maxRequestBodyBytes s ->
  maxRequestBodyBytes s < ContentLength req ->
  log s = Some l ->
  errHandler s = Some h ->
  w_trace (ServeHTTP s flt req (initWorld k st)) =
    [EvLog l INFO "request body over limit: %v";
     EvErrHandler (Some (MaxSizeReachedError (maxRequestBodyBytes s)))] /\
  invocations (w_trace (ServeHTTP s flt req (initWorld k st))) = 0%nat /\
  ~ In EvReadBody (w_trace (ServeHTTP s flt req (initWorld k st))) /\
  w_hstate (ServeHTTP s flt req (initWorld k st)) = st /\
  w_sink (ServeHTTP s flt req (initWorld k st)) =
    h k req (Some (MaxSizeReachedError (maxRequestBodyBytes s))) /\
  SizeErrHandler k req (Some (MaxSizeReachedError (maxRequestBodyBytes s))) =
    rw_Write (rw_WriteHeader k StatusRequestEntityTooLarge)
             (list_byte_of_string "Request Entity Too Large").
Proof.
  intros Hpos Hover Hlog Herr.
  assert (Hlimit : checkLimit s req = Some (MaxSizeReachedError (maxRequestBodyBytes s))).
  { unfold checkLimit.
    destruct (Z.leb_spec (maxRequestBodyBytes s) 0); [lia|].
    destruct (Z.ltb_spec (maxRequestBodyBytes s) (ContentLength req)); [reflexivity|lia]. }
  assert (Hrun : ServeHTTP s flt req (initWorld k st) =
    {| w_sink := h k req (Some (MaxSizeReachedError (maxRequestBodyBytes s)));
       w_hstate := st; w_body := None; w_defers := [];
       w_trace := [EvLog l INFO "request body over limit: %v";
                   EvErrHandler (Some (MaxSizeReachedError (maxRequestBodyBytes s)))] |}).
  { unfold ServeHTTP, ServeHTTP_body, log_call, errHandler_ServeHTTP, emit, return_,
      self, mbind, M_bind.
    rewrite Hlimit, Hlog, Herr. reflexivity. }
  rewrite Hrun. cbn. repeat split; try reflexivity.
  intros [Hin|[Hin|[]]]; discriminate.
Qed.

(** ** The attempt loop *)

Lemma attemptLoop_step s flt req totalSize attempt outreq w :
  attemptLoop flt req totalSize attempt outreq s w =
  match attemptBody flt req totalSize attempt outreq s w with
  | (Go (attempt', outreq'), s', w') => attemptLoop flt req totalSize attempt' outreq' s' w'
  | (Exit, s', w') => (Exit, s', w')
  end.
Proof.
  simp attemptLoop.
  change (attemptBody flt req totalSize attempt outreq s w)
    with (proj1_sig (inspect (attemptBody flt req totalSize attempt outreq s w))) at 2.
  generalize (inspect (attemptBody flt req totalSize attempt outreq s w)).
  intros [[[[[attempt' outreq']|] s'] w'] Hpass]; simpl; simp attemptLoop; reflexivity.
Qed.

(** Symbolic execution of one pass: every way through [attemptBody]. *)
Ltac split_matches :=
  repeat (match goal with
          | |- context [match ?x with _ => _ end] =>
              lazymatch x with
              | context [match _ with _ => _ end] => fail
              | _ => destruct x eqn:?
              end
          end; try discriminate).

Ltac pass_cases Hpass :=
  revert Hpass;
  unfold attemptBody, multibuf_NewWriterOnce, next_ServeHTTP, writer_Reader,
    finalizes, deliver, body_Seek0, log_call, errHandler_ServeHTTP,
    defer, emit, panic, return_, self, mbind, M_bind, mret, M_ret;
  split_matches;
  intros Hpass; inversion Hpass; subst; clear Hpass.

(** Symbolic execution of [ServeHTTP] up to the loop. *)
Ltac serve_cases :=
  unfold ServeHTTP, ServeHTTP_receiver, ServeHTTP_body, multibuf_New, body_Size,
    log_call, errHandler_ServeHTTP, defer, emit, panic, return_, self,
    mbind, M_bind, mret, M_ret;
  split_matches;
  try match goal with
      | Hb : (_ || _) = false |- _ =>
          cbn in Hb; rewrite ?orb_true_r in Hb; discriminate Hb
      end.

(** A pass through the loop body reads the receiver and never assigns to
    it. *)
Lemma attemptBody_receiver flt req totalSize attempt outreq s w r s' w' :
  attemptBody flt req totalSize attempt outreq s w = (r, s', w') -> s' = s.
Proof. intros Hpass. pass_cases Hpass; reflexivity. Qed.

(** A pass that asks for another one has incremented the counter and was
    within the retry ceiling. *)
Lemma attemptBody_next flt req totalSize attempt outreq s w attempt' outreq' s' w' :
  attemptBody flt req totalSize attempt outreq s w = (Go (attempt', outreq'), s', w') ->
  attempt' = attempt + 1 /\ attempt <= DefaultMaxRetryAttempts.
Proof.
  intros Hpass. pass_cases Hpass.
  match goal with Hlt : (_ <? _) = false |- _ => apply Z.ltb_ge in Hlt end.
  split; [reflexivity | assumption].
Qed.

(** Invariant reasoning for the loop: [I] holds at the head of every pass,
    [Q] holds when the loop is left. *)
Lemma attemptLoop_inv (I : Z -> Request -> World HState -> Prop) (Q : World HState -> Prop)
    s flt req totalSize :
  (forall attempt outreq w attempt' outreq' w',
      I attempt outreq w ->
      attemptBody flt req totalSize attempt outreq s w = (Go (attempt', outreq'), s, w') ->
      I attempt' outreq' w') ->
  (forall attempt outreq w w',
      I attempt outreq w ->
      attemptBody flt req totalSize attempt outreq s w = (Exit, s, w') ->
      Q w') ->
  forall attempt outreq w,
    I attempt outreq w -> Q (attemptLoop flt req totalSize attempt outreq s w).2.
Proof.
  intros Hgo Hexit attempt.
  remember (Z.to_nat (DefaultMaxRetryAttempts + 1 - attempt)) as n eqn:Hn.
  revert attempt Hn.
  induction n as [n IH] using lt_wf_ind.
  intros attempt Hn outreq w HI.
  rewrite attemptLoop_step.
  destruct (attemptBody flt req totalSize attempt outreq s w)
    as [[[[attempt' outreq']|] s'] w'] eqn:Hpass.
  - pose proof (attemptBody_receiver _ _ _ _ _ _ _ _ _ _ Hpass) as ->.
    destruct (attemptBody_next _ _ _ _ _ _ _ _ _ _ _ Hpass) as [-> Hle].
    eapply (IH (Z.to_nat (DefaultMaxRetryAttempts + 1 - (attempt + 1)))); [lia | reflexivity |].
    eapply Hgo; eassumption.
  - pose proof (attemptBody_receiver _ _ _ _ _ _ _ _ _ _ Hpass) as ->.
    eapply Hexit; eassumption.
Qed.

(** The loop leaves the receiver as it found it. *)
Lemma attemptLoop_receiver flt req totalSize attempt outreq s w :
  (attemptLoop flt req totalSize attempt outreq s w).1.2 = s.
Proof.
  remember (Z.to_nat (DefaultMaxRetryAttempts + 1 - attempt)) as n eqn:Hn.
  revert attempt Hn outreq w.
  induction n as [n IH] using lt_wf_ind.
  intros attempt Hn outreq w.
  rewrite attemptLoop_step.
  destruct (attemptBody flt req totalSize attempt outreq s w)
    as [[[[attempt' outreq']|] s'] w'] eqn:Hpass.
  - pose proof (attemptBody_receiver _ _ _ _ _ _ _ _ _ _ Hpass) as ->.
    destruct (attemptBody_next _ _ _ _ _ _ _ _ _ _ _ Hpass) as [-> Hle].
    eapply (IH (Z.to_nat (DefaultMaxRetryAttempts + 1 - (attempt + 1)))); [lia | reflexivity].
  - pose proof (attemptBody_receiver _ _ _ _ _ _ _ _ _ _ Hpass) as ->. reflexivity.
Qed.

(** ** The receiver *)

(** [ServeHTTP] reads its receiver and never assigns to it. *)
Lemma ServeHTTP_keeps_receiver s flt req w : ServeHTTP_receiver s flt req w = s.
Proof.
  serve_cases; cbn [fst snd]; try reflexivity.
  apply attemptLoop_receiver.
Qed.

(** C9 (amended). [ServeHTTP] leaves every field of the Streamer it is called
    on as it was, so the requests an instance handles are served from the
    configuration as the caller left it.  The configuration can still be
    changed after [New] has returned, by the exported operations that
    assign: [Wrap] replaces the wrapped handler and nothing else, and an
    option closure applied to the Streamer assigns its own field and nothing
    else, or nothing at all when it returns an error. *)
Theorem only_Wrap_and_options_change_configuration s :
  (forall flt req w, receiver_after s (CallServeHTTP flt req w) = s) /\
  (forall next_, receiver_after s (CallWrap next_) = set_next next_ s) /\
  (forall o,
      next (receiver_after s (CallOption o)) = next s /\
      (snd (option_closure o s) <> None -> receiver_after s (CallOption o) = s) /\
      (maxRequestBodyBytes (receiver_after s (CallOption o)) <> maxRequestBodyBytes s ->
         o = OptMaxRequestBodyBytes (maxRequestBodyBytes (receiver_after s (CallOption o)))) /\
      (memRequestBodyBytes (receiver_after s (CallOption o)) <> memRequestBodyBytes s ->
         o = OptMemRequestBodyBytes (memRequestBodyBytes (receiver_after s (CallOption o)))) /\
      (maxResponseBodyBytes (receiver_after s (CallOption o)) <> maxResponseBodyBytes s ->
         o = OptMaxResponseBodyBytes (maxResponseBodyBytes (receiver_after s (CallOption o)))) /\
      (memResponseBodyBytes (receiver_after s (CallOption o)) <> memResponseBodyBytes s ->
         o = OptMemResponseBodyBytes (memResponseBodyBytes (receiver_after s (CallOption o)))) /\
      (retryPredicate (receiver_after s (CallOption o)) <> retryPredicate s ->
         exists e, o = OptRetry e) /\
      (errHandler (receiver_after s (CallOption o)) <> errHandler s ->
         o = OptErrorHandler (errHandler (receiver_after s (CallOption o)))) /\
      (log (receiver_after s (CallOption o)) <> log s ->
         o = OptLogger (log (receiver_after s (CallOption o))))).
Proof.
  split; [|split].
  - intros flt req w. apply ServeHTTP_keeps_receiver.
  - intros next_. reflexivity.
  - intros o.
    destruct o as [e|l|h|m|m|m|m]; cbn;
      unfold Retry, MaxRequestBodyBytes, MemRequestBodyBytes, MaxResponseBodyBytes,
        MemResponseBodyBytes;
      try destruct (parseExpression e);
      try destruct (m <? 0);
      cbn; repeat split; intros; try congruence; eauto.
Qed.

(** ** Facts about traces and deferred calls *)

Lemma invocations_app tr1 tr2 :
  invocations (tr1 ++ tr2) = (invocations tr1 + invocations tr2)%nat.
Proof.
  induction tr1 as [|e tr1 IH]; simpl; [reflexivity|].
  destruct e; simpl; rewrite IH; reflexivity.
Qed.

Lemma invocations_closes (ds : list Resource) : invocations (map EvClose ds) = 0%nat.
Proof. induction ds; simpl; auto. Qed.

Lemma fold_emit_close (ds : list Resource) w :
  let w' := fold_left (fun w r => w_emit (EvClose r) w) ds w in
  w_trace w' = w_trace w ++ map EvClose ds /\
  w_sink w' = w_sink w /\ w_hstate w' = w_hstate w /\ w_body w' = w_body w.
Proof.
  revert w. induction ds as [|r ds IH]; intros w; simpl.
  - rewrite app_nil_r. auto.
  - destruct (IH (w_emit (EvClose r) w)) as (Ht & Hs & Hh & Hb).
    rewrite Ht, Hs, Hh, Hb. simpl. rewrite <- app_assoc. auto.
Qed.

Lemma run_defers_trace w :
  w_trace (run_defers w) = w_trace w ++ map EvClose (w_defers w).
Proof. unfold run_defers. simpl. apply fold_emit_close. Qed.

Lemma run_defers_sink w : w_sink (run_defers w) = w_sink w.
Proof. unfold run_defers. simpl. apply fold_emit_close. Qed.

(** ** The retry ceiling *)

Lemma attemptLoop_invocations s flt req totalSize outreq w :
  (invocations (w_trace (attemptLoop flt req totalSize 1 outreq s w).2)
   <= invocations (w_trace w) + Z.to_nat (DefaultMaxRetryAttempts + 1))%nat.
Proof.
  set (n0 := invocations (w_trace w)).
  apply (attemptLoop_inv
    (fun attempt _ w => 1 <= attempt <= DefaultMaxRetryAttempts + 1 /\
       (invocations (w_trace w) <= n0 + Z.to_nat (attempt - 1))%nat)
    (fun w => (invocations (w_trace w)
               <= n0 + Z.to_nat (DefaultMaxRetryAttempts + 1))%nat)).
  - intros attempt o w1 attempt' o' w1' [Hrange Hcount] Hpass.
    pass_cases Hpass. cbn.
    match goal with Hlt : (_ <? _) = false |- _ => apply Z.ltb_ge in Hlt end.
    rewrite !invocations_app. cbn. unfold DefaultMaxRetryAttempts in *. lia.
  - intros attempt o w1 w1' [Hrange Hcount] Hpass.
    pass_cases Hpass; cbn; rewrite ?invocations_app; cbn;
      unfold DefaultMaxRetryAttempts in *; lia.
  - unfold DefaultMaxRetryAttempts. subst n0. simpl. lia.
Qed.

(** C1 (amended). For every inbound request, the wrapped handler is invoked
    at most [DefaultMaxRetryAttempts + 1] = 11 times, whatever the retry
    predicate answers: the first attempt and at most ten retries. *)
Theorem invocations_at_most_ceiling_plus_one s flt req (k : ResponseWriter) (st : HState) :
  (invocations (w_trace (ServeHTTP s flt req (initWorld k st)))
   <= Z.to_nat (DefaultMaxRetryAttempts + 1))%nat.
Proof.
  unfold ServeHTTP. rewrite run_defers_trace, invocations_app, invocations_closes.
  serve_cases; cbn; try lia.
  rewrite Nat.add_0_r.
  etransitivity; [apply attemptLoop_invocations|]. cbn. lia.
Qed.

(** ** Replay and reframing *)

(** The wrapped handler can only move the cursor of the request buffer. *)
Lemma run_handler_data (p : HandlerProg HState) b (m : MultiReader) (o : Request) :
  mr_data (run_handler p b m o).1.2 = mr_data m.
Proof.
  revert b m o.
  induction p as [st|f p IH|c p IH|buf k IH|n k IH|f p IH]; intros b m o; simpl.
  - reflexivity.
  - apply IH.
  - apply IH.
  - destruct (bufferWriter_Write b buf) as [b' res]. apply IH.
  - rewrite IH. reflexivity.
  - apply IH.
Qed.

Ltac in_trace Hin :=
  cbn in Hin; rewrite ?in_app_iff in Hin; cbn in Hin;
  repeat match type of Hin with
         | _ \/ _ => destruct Hin as [Hin|Hin]
         | False => destruct Hin
         end;
  try discriminate.

Ltac unify_eqs :=
  repeat match goal with
         | H1 : ?x = Some _, H2 : ?x = Some _ |- _ => rewrite H1 in H2
         | H1 : ?x = Some _, H2 : ?x = None |- _ => rewrite H1 in H2; discriminate H2
         | H : Some _ = Some _ |- _ => inversion H; subst; clear H
         | H : EvCall _ _ _ = _ |- _ => inversion H; subst; clear H
         | H : EvReturn _ _ = _ |- _ => inversion H; subst; clear H
         | H : EvPredicate _ = _ |- _ => inversion H; subst; clear H
         | H : EvOpen _ = _ |- _ => inversion H; subst; clear H
         | H : EvClose _ = _ |- _ => inversion H; subst; clear H
         | H : EvDeliver _ = _ |- _ => inversion H; subst; clear H
         end.

(** Every invocation of the wrapped handler made by the loop sees the
    envelope as [copyRequest] builds it, whatever earlier invocations did to
    theirs, and the buffer rewound to its start. *)
Lemma attemptLoop_calls s flt req (data : list byte) w :
  w_body w = Some {| mr_data := data; mr_pos := 0 |} ->
  (forall a o m, In (EvCall a o m) (w_trace w) ->
     o = copyRequest s req BufferBody (Z.of_nat (length data)) /\
     m = {| mr_data := data; mr_pos := 0 |}) ->
  forall a o m,
    In (EvCall a o m)
       (w_trace (attemptLoop flt req (Z.of_nat (length data)) 1
                   (copyRequest s req BufferBody (Z.of_nat (length data))) s w).2) ->
    o = copyRequest s req BufferBody (Z.of_nat (length data)) /\
    m = {| mr_data := data; mr_pos := 0 |}.
Proof.
  intros Hbody Hcalls.
  apply (attemptLoop_inv
    (fun _ outreq w =>
       outreq = copyRequest s req BufferBody (Z.of_nat (length data)) /\
       w_body w = Some {| mr_data := data; mr_pos := 0 |} /\
       forall a o m, In (EvCall a o m) (w_trace w) ->
         o = copyRequest s req BufferBody (Z.of_nat (length data)) /\
         m = {| mr_data := data; mr_pos := 0 |})
    (fun w => forall a o m, In (EvCall a o m) (w_trace w) ->
       o = copyRequest s req BufferBody (Z.of_nat (length data)) /\
       m = {| mr_data := data; mr_pos := 0 |})).
  - intros attempt outreq w1 attempt' outreq' w1' (-> & Hb & Hc) Hpass.
    pass_cases Hpass. cbn in *.
    match goal with Hrun : run_handler ?p ?b ?m0 ?o0 = _ |- _ =>
      pose proof (run_handler_data p b m0 o0) as Hdata; rewrite Hrun in Hdata; cbn in Hdata
    end.
    unify_eqs. cbn in *.
    split; [reflexivity|]. split.
    + unfold mr_Seek0. f_equal. f_equal. assumption.
    + intros a o m' Hin. in_trace Hin; try (eapply Hc; eassumption).
      unify_eqs. split; reflexivity.
  - intros attempt outreq w1 w1' (-> & Hb & Hc) Hpass.
    pass_cases Hpass; cbn in *; intros a' o' m' Hin; in_trace Hin;
      try (eapply Hc; eassumption); unify_eqs; split; reflexivity.
  - auto.
Qed.

Lemma body_input_init req (k : ResponseWriter) (st : HState) :
  body_input (Body req) (initWorld k st) = inbound_bytes req.
Proof. unfold body_input, inbound_bytes. destruct (Body req); reflexivity. Qed.

Lemma ServeHTTP_calls s flt req (k : ResponseWriter) (st : HState) a o m :
  In (EvCall a o m) (w_trace (ServeHTTP s flt req (initWorld k st))) ->
  o = copyRequest s req BufferBody (Z.of_nat (length (inbound_bytes req))) /\
  m = {| mr_data := inbound_bytes req; mr_pos := 0 |}.
Proof.
  unfold ServeHTTP. rewrite run_defers_trace, in_app_iff.
  intros [Hin|Hin].
  - revert Hin. serve_cases; cbn; intros Hin;
      lazymatch type of Hin with
      | context [attemptLoop] => idtac
      | _ => in_trace Hin
      end.
    match goal with Hb : w_body _ = Some _ |- _ =>
      cbn in Hb; inversion Hb; subst; clear Hb
    end.
    rewrite body_input_init in *. unfold mr_Size in Hin. cbn [mr_data] in Hin.
    eapply attemptLoop_calls; [| |exact Hin].
    + reflexivity.
    + intros a' o' m' Hin'. in_trace Hin'.
  - apply in_map_iff in Hin. destruct Hin as (r & Hr & _). discriminate Hr.
Qed.

(** C2. Replay idempotence: on every attempt the wrapped handler is given
    the shared buffer rewound to offset 0, so the body bytes it can read are
    the same on every attempt, namely the whole buffered body, however far
    earlier attempts have read.  The envelope of every attempt is a fresh
    one, built by [copyRequest] from the inbound request over that buffer
    with the same total size: what an earlier attempt assigned through its
    envelope is not seen by a later one. *)
Theorem replay_is_byte_identical s flt req (k : ResponseWriter) (st : HState)
    a1 o1 m1 a2 o2 m2 :
  In (EvCall a1 o1 m1) (w_trace (ServeHTTP s flt req (initWorld k st))) ->
  In (EvCall a2 o2 m2) (w_trace (ServeHTTP s flt req (initWorld k st))) ->
  mr_remaining m1 = mr_remaining m2 /\
  mr_remaining m1 = inbound_bytes req /\
  mr_pos m1 = 0%nat /\ mr_pos m2 = 0%nat /\
  m1 = m2 /\
  o1 = copyRequest s req BufferBody (Z.of_nat (length (inbound_bytes req))) /\
  o1 = o2 /\
  Body o1 = BufferBody /\
  ContentLength o1 = ContentLength o2.
Proof.
  intros Hin1 Hin2.
  apply ServeHTTP_calls in Hin1. apply ServeHTTP_calls in Hin2.
  destruct Hin1 as [-> ->], Hin2 as [-> ->].
  unfold mr_remaining. cbn. repeat split; reflexivity.
Qed.

(** C4. Every outbound request passed to the wrapped handler, on every
    attempt, carries a ContentLength equal to the number of bytes buffered
    from the inbound body and an empty transfer-encoding list, however the
    inbound request was framed. *)
Theorem reframed_request_has_length_and_no_encoding s flt req (k : ResponseWriter)
    (st : HState) a o m :
  In (EvCall a o m) (w_trace (ServeHTTP s flt req (initWorld k st))) ->
  ContentLength o = Z.of_nat (length (mr_data m)) /\
  mr_data m = inbound_bytes req /\
  TransferEncoding o = [].
Proof.
  intros Hin. apply ServeHTTP_calls in Hin. destruct Hin as [-> ->].
  cbn. repeat split; reflexivity.
Qed.

(** ** Release of buffers *)

Lemma opens_app tr1 tr2 : opens (tr1 ++ tr2) = opens tr1 ++ opens tr2.
Proof.
  induction tr1 as [|e tr1 IH]; simpl; [reflexivity|].
  destruct e; simpl; rewrite ?IH; reflexivity.
Qed.

Lemma In_opens tr r : In (EvOpen r) tr <-> r ∈ opens tr.
Proof.
  induction tr as [|e tr IH]; simpl.
  - rewrite elem_of_nil. tauto.
  - destruct e; simpl; rewrite ?elem_of_cons, <- IH;
      intuition (try discriminate; try congruence).
Qed.

Ltac trace_norm :=
  cbn; rewrite ?opens_app; cbn [opens]; rewrite ?app_nil_r, ?rev_app_distr;
  cbn [rev app].

Ltac res_goal Hnc Hnd Hlt :=
  lazymatch goal with
  | |- forall r, ~ _ =>
      let Hin := fresh "Hin" in
      intros ? Hin; in_trace Hin; eapply Hnc; eassumption
  | |- _ = _ => reflexivity
  | |- NoDup _ =>
      rewrite ?NoDup_app; repeat split;
      try exact Hnd; try apply NoDup_singleton; try apply NoDup_nil_2;
      let Hx := fresh "Hx" in let Hy := fresh "Hy" in
      intros ? Hx Hy;
      rewrite ?elem_of_app, ?list_elem_of_singleton, ?elem_of_nil in Hx;
      rewrite ?list_elem_of_singleton in Hy; subst;
      repeat match type of Hx with
             | _ \/ _ => destruct Hx as [Hx|Hx]
             | False => destruct Hx
             end;
      try discriminate;
      apply Hlt in Hx; cbn in Hx; lia
  | |- forall r, r ∈ _ -> _ < _ =>
      let Hx := fresh "Hx" in
      intros ? Hx;
      rewrite ?elem_of_app, ?list_elem_of_singleton, ?elem_of_nil in Hx;
      repeat match type of Hx with
             | _ \/ _ => destruct Hx as [Hx|Hx]
             | False => destruct Hx
             end;
      subst; cbn; try lia;
      apply Hlt in Hx; lia
  end.

Lemma attemptLoop_resources s flt req totalSize outreq w :
  resources_pending w ->
  (forall r, r ∈ opens (w_trace w) -> res_attempt r < 1) ->
  resources_pending (attemptLoop flt req totalSize 1 outreq s w).2.
Proof.
  intros Hpend Hold.
  apply (attemptLoop_inv
    (fun attempt _ w => resources_pending w /\
       forall r, r ∈ opens (w_trace w) -> res_attempt r < attempt)
    resources_pending); [| |auto].
  - intros attempt o w1 attempt' o' w1' [(Hnc & Hdef & Hnd) Hlt] Hpass.
    pass_cases Hpass. clear -Hnc Hdef Hnd Hlt.
    unfold resources_pending. trace_norm. rewrite <- Hdef.
    repeat split; res_goal Hnc Hnd Hlt.
  - intros attempt o w1 w1' [(Hnc & Hdef & Hnd) Hlt] Hpass.
    pass_cases Hpass; clear -Hnc Hdef Hnd Hlt;
      unfold resources_pending; trace_norm; rewrite <- ?Hdef;
      repeat split; res_goal Hnc Hnd Hlt.
Qed.

Lemma ServeHTTP_body_resources s flt req (k : ResponseWriter) (st : HState) :
  resources_pending (snd (ServeHTTP_body flt req s (initWorld k st))).
Proof.
  assert (Hnc : forall r : Resource, ~ In (EvClose r) (w_trace (initWorld k st)))
    by (intros r []).
  assert (Hnd : NoDup (opens (w_trace (initWorld k st)))) by constructor.
  assert (Hlt : forall r, r ∈ opens (w_trace (initWorld k st)) -> res_attempt r < 1)
    by (intros r Hr; cbn in Hr; apply elem_of_nil in Hr; destruct Hr).
  serve_cases;
    lazymatch goal with
    | |- context [attemptLoop] => idtac
    | _ => unfold resources_pending; trace_norm; repeat split; res_goal Hnc Hnd Hlt
    end.
  cbn [snd]. apply attemptLoop_resources.
  - unfold resources_pending; trace_norm; repeat split; res_goal Hnc Hnd Hlt.
  - trace_norm. res_goal Hnc Hnd Hlt.
Qed.

Lemma In_map_close (ds : list Resource) e :
  In e (map EvClose ds) -> exists r, e = EvClose r /\ r ∈ ds.
Proof.
  intros Hin. apply in_map_iff in Hin. destruct Hin as (r & <- & Hr).
  exists r. split; [reflexivity|]. apply list_elem_of_In. exact Hr.
Qed.

(** C6 (amended). Every buffer opened while a request is handled, in
    particular the bufferWriter of each attempt and the reader obtained
    from it, is closed exactly once, after its attempt has completed and
    before [ServeHTTP] returns, whether the attempt was retried or
    delivered: once the close happens, nothing but further closes
    follows. *)
Theorem every_capture_is_closed_once s flt req (k : ResponseWriter) (st : HState)
    (r : Resource) :
  In (EvOpen r) (w_trace (ServeHTTP s flt req (initWorld k st))) ->
  exists pre post,
    w_trace (ServeHTTP s flt req (initWorld k st)) = pre ++ EvClose r :: post /\
    In (EvOpen r) pre /\
    ~ In (EvClose r) pre /\
    ~ In (EvClose r) post /\
    forall e, In e post -> is_close e = true.
Proof.
  unfold ServeHTTP. rewrite run_defers_trace.
  destruct (ServeHTTP_body_resources s flt req k st) as (Hnc & Hdef & Hnd).
  set (w := snd (ServeHTTP_body flt req s (initWorld k st))) in *.
  intros Hin. apply in_app_iff in Hin. destruct Hin as [Hin|Hin].
  2: { apply In_map_close in Hin. destruct Hin as (r' & Hr' & _). discriminate. }
  assert (Hr : r ∈ w_defers w).
  { rewrite Hdef. apply list_elem_of_In, in_rev. rewrite rev_involutive.
    apply list_elem_of_In, In_opens. exact Hin. }
  assert (Hnd' : NoDup (w_defers w)).
  { rewrite Hdef. apply NoDup_ListNoDup, NoDup_rev, NoDup_ListNoDup. exact Hnd. }
  destruct (list_elem_of_split _ _ Hr) as (d1 & d2 & Hsplit).
  rewrite Hsplit in Hnd'. apply NoDup_app in Hnd'.
  destruct Hnd' as (_ & Hd1 & Hd2). apply NoDup_cons in Hd2. destruct Hd2 as [Hd2 _].
  exists (w_trace w ++ map EvClose d1), (map EvClose d2).
  rewrite Hsplit, map_app, <- app_assoc. cbn.
  repeat split.
  - apply in_app_iff. left. exact Hin.
  - intros Hc. apply in_app_iff in Hc. destruct Hc as [Hc|Hc].
    + exact (Hnc r Hc).
    + apply In_map_close in Hc. destruct Hc as (r' & [= <-] & Hr').
      apply (Hd1 r Hr'). apply elem_of_cons. left. reflexivity.
  - intros Hc. apply In_map_close in Hc. destruct Hc as (r' & [= <-] & Hr').
    exact (Hd2 Hr').
  - intros e He. apply In_map_close in He. destruct He as (r' & -> & _). reflexivity.
Qed.

(** ** Header fidelity *)

Lemma Header_Add_get canon (d : Header) (k v k0 : string) :
  Header_Get (Header_Add canon d k v) k0 =
  if decide (k0 = canon k) then Header_Get d k0 ++ [v] else Header_Get d k0.
Proof.
  unfold Header_Add, Header_Get. case_decide as Hk.
  - subst k0. rewrite lookup_insert_eq. reflexivity.
  - rewrite lookup_insert_ne by congruence. reflexivity.
Qed.

Lemma addValues_get canon (k : string) (vv : list string) (d : Header) (k0 : string) :
  Header_Get (addValues canon k vv d) k0 =
  if decide (k0 = canon k) then Header_Get d k0 ++ vv else Header_Get d k0.
Proof.
  unfold addValues. revert d.
  induction vv as [|v vv IH]; intros d; simpl.
  - case_decide; [rewrite app_nil_r|]; reflexivity.
  - rewrite IH, Header_Add_get. case_decide; [|reflexivity].
    rewrite <- app_assoc. reflexivity.
Qed.

(** The values found under a key after [copyHeaders] are those that were
    there and those the source holds under a key with that canonical form. *)
Lemma copyHeaders_elem canon (dst src : Header) (k v : string) :
  v ∈ Header_Get (copyHeaders canon dst src) k <->
  v ∈ Header_Get dst k \/
  exists k' vv, src !! k' = Some vv /\ canon k' = k /\ v ∈ vv.
Proof.
  unfold copyHeaders.
  apply (map_fold_weak_ind
    (fun r m => v ∈ Header_Get r k <->
       v ∈ Header_Get dst k \/ exists k' vv, m !! k' = Some vv /\ canon k' = k /\ v ∈ vv)).
  - split; [auto|]. intros [Hd|(k' & vv & Hk' & _)]; [exact Hd|].
    rewrite lookup_empty in Hk'. discriminate.
  - intros i x m r Hi IH. rewrite addValues_get. split.
    + case_decide as Hk.
      * rewrite elem_of_app, IH. intros [[Hd|(k' & vv & Hk' & Hc & Hv)]|Hx].
        -- left. exact Hd.
        -- right. exists k', vv. repeat split; auto.
           rewrite lookup_insert_ne; [exact Hk'|]. intros ->. congruence.
        -- right. exists i, x. rewrite lookup_insert_eq. auto.
      * rewrite IH. intros [Hd|(k' & vv & Hk' & Hc & Hv)]; [left; exact Hd|].
        right. exists k', vv. repeat split; auto.
        rewrite lookup_insert_ne; [exact Hk'|]. intros ->. congruence.
    + intros [Hd|(k' & vv & Hk' & Hc & Hv)].
      * case_decide; rewrite ?elem_of_app, IH; auto.
      * apply lookup_insert_Some in Hk'. destruct Hk' as [[<- <-]|[Hne Hk']].
        -- rewrite decide_True by auto. apply elem_of_app. right. exact Hv.
        -- case_decide; rewrite ?elem_of_app, IH; [left|]; right; eauto.
Qed.

(** When the keys of the source are canonical, every key receives exactly
    the source values, appended to what the destination held. *)
Lemma copyHeaders_canonical canon (dst src : Header) :
  (forall k, is_Some (src !! k) -> canon k = k) ->
  forall k, Header_Get (copyHeaders canon dst src) k = Header_Get dst k ++ Header_Get src k.
Proof.
  unfold copyHeaders.
  apply (map_fold_weak_ind
    (fun r m => (forall k, is_Some (m !! k) -> canon k = k) ->
       forall k, Header_Get r k = Header_Get dst k ++ Header_Get m k)).
  - intros _ k. unfold Header_Get at 3. rewrite lookup_empty. simpl.
    rewrite app_nil_r. reflexivity.
  - intros i x m r Hi IH Hcanon k.
    assert (Hci : canon i = i) by (apply Hcanon; rewrite lookup_insert_eq; eauto).
    assert (Hm : forall k0, is_Some (m !! k0) -> canon k0 = k0).
    { intros k0 Hk0. apply Hcanon. rewrite lookup_insert_is_Some'. auto. }
    rewrite addValues_get, Hci, (IH Hm). case_decide as Hk.
    + subst k.
      assert (Hold : Header_Get m i = []) by (unfold Header_Get; rewrite Hi; reflexivity).
      assert (Hnew : Header_Get (<[i:=x]> m) i = x)
        by (unfold Header_Get; rewrite lookup_insert_eq; reflexivity).
      rewrite Hold, Hnew, app_nil_r. reflexivity.
    + assert (Hsame : Header_Get (<[i:=x]> m) k = Header_Get m k)
        by (unfold Header_Get; rewrite lookup_insert_ne by congruence; reflexivity).
      rewrite Hsame. reflexivity.
Qed.

Ltac fresh_capture :=
  match goal with
  | Hrun : run_handler (?h ?st ?o) _ ?m ?o = (_, ?b, _, _) |- captured_fresh _ ?b =>
      exists h, st, o, m; split; [assumption | rewrite Hrun; reflexivity]
  end.

(** Until the loop is left the real writer is untouched; when it is left
    through the finalize branch, the writer receives the capture of the
    attempt that just returned. *)
Lemma attemptLoop_delivery s flt req totalSize outreq w (k : ResponseWriter) :
  w_sink w = k ->
  (forall n b, In (EvReturn n b) (w_trace w) -> n < 1) ->
  (forall n, ~ In (EvDeliver n) (w_trace w)) ->
  forall n b,
    In (EvDeliver n) (w_trace (attemptLoop flt req totalSize 1 outreq s w).2) ->
    In (EvReturn n b) (w_trace (attemptLoop flt req totalSize 1 outreq s w).2) ->
    w_sink (attemptLoop flt req totalSize 1 outreq s w).2 = delivered k b /\
    captured_fresh s b.
Proof.
  intros Hsink Hret Hdel.
  apply (attemptLoop_inv
    (fun attempt _ w =>
       w_sink w = k /\
       (forall n b, In (EvReturn n b) (w_trace w) -> n < attempt) /\
       (forall n, ~ In (EvDeliver n) (w_trace w)))
    (fun w => forall n b,
       In (EvDeliver n) (w_trace w) -> In (EvReturn n b) (w_trace w) ->
       w_sink w = delivered k b /\ captured_fresh s b)); [| |auto].
  - intros attempt o w1 attempt' o' w1' (Hs & Hr & Hd) Hpass.
    pass_cases Hpass. cbn in *. repeat split.
    + assumption.
    + intros n b' Hin. in_trace Hin; unify_eqs; try lia.
      apply Hr in Hin. lia.
    + intros n Hin. in_trace Hin. eapply Hd; eassumption.
  - intros attempt o w1 w1' (Hs & Hr & Hd) Hpass.
    pass_cases Hpass; cbn in *; intros n b' Hin1 Hin2;
      in_trace Hin1; try (exfalso; eapply Hd; eassumption); unify_eqs;
      in_trace Hin2; unify_eqs;
      try (apply Hr in Hin2; lia);
      (split; [rewrite Hs; reflexivity | fresh_capture]).
Qed.

Lemma ServeHTTP_delivery s flt req (k : ResponseWriter) (st : HState) n b :
  In (EvDeliver n) (w_trace (ServeHTTP s flt req (initWorld k st))) ->
  In (EvReturn n b) (w_trace (ServeHTTP s flt req (initWorld k st))) ->
  w_sink (ServeHTTP s flt req (initWorld k st)) = delivered k b /\
  captured_fresh s b.
Proof.
  unfold ServeHTTP. rewrite run_defers_trace, run_defers_sink, !in_app_iff.
  intros [Hin1|Hin1] [Hin2|Hin2];
    try (apply In_map_close in Hin1; destruct Hin1 as (? & ? & _); discriminate);
    try (apply In_map_close in Hin2; destruct Hin2 as (? & ? & _); discriminate).
  revert Hin1 Hin2. serve_cases; cbn; intros Hin1 Hin2;
    lazymatch type of Hin1 with
    | context [attemptLoop] => idtac
    | _ => in_trace Hin1
    end.
  eapply attemptLoop_delivery; [| | |exact Hin1|exact Hin2].
  - reflexivity.
  - intros n' b' Hin. in_trace Hin.
  - intros n' Hin. in_trace Hin.
Qed.

(** Outside the finalize branch no capture reaches the real writer: it is
    either untouched or holds what the error handler made of it. *)
Lemma attemptLoop_sink s flt req totalSize outreq w (k : ResponseWriter) :
  w_sink w = k ->
  let w' := (attemptLoop flt req totalSize 1 outreq s w).2 in
  (exists n, In (EvDeliver n) (w_trace w')) \/
  w_sink w' = k \/
  (exists h err, errHandler s = Some h /\ w_sink w' = h k req err).
Proof.
  intros Hsink. cbv zeta.
  apply (attemptLoop_inv
    (fun _ _ w => w_sink w = k)
    (fun w' => (exists n, In (EvDeliver n) (w_trace w')) \/
               w_sink w' = k \/
               (exists h err, errHandler s = Some h /\ w_sink w' = h k req err)));
    [| |exact Hsink].
  - intros attempt o w1 attempt' o' w1' Hs Hpass. pass_cases Hpass. exact Hs.
  - intros attempt o w1 w1' Hs Hpass.
    pass_cases Hpass; cbn;
      first
        [ left; eexists; apply in_app_iff; right; left; reflexivity
        | right; left; exact Hs
        | right; right; do 2 eexists; split; [reflexivity|rewrite Hs; reflexivity] ].
Qed.

Lemma ServeHTTP_sink s flt req (k : ResponseWriter) (st : HState) :
  (exists n, In (EvDeliver n) (w_trace (ServeHTTP s flt req (initWorld k st)))) \/
  w_sink (ServeHTTP s flt req (initWorld k st)) = k \/
  (exists h err, errHandler s = Some h /\
     w_sink (ServeHTTP s flt req (initWorld k st)) = h k req err).
Proof.
  unfold ServeHTTP. rewrite run_defers_trace, run_defers_sink.
  serve_cases; cbn;
    lazymatch goal with
    | |- context [attemptLoop] => idtac
    | _ =>
        first
          [ right; left; reflexivity
          | right; right; do 2 eexists; split; reflexivity ]
    end.
  destruct (attemptLoop_sink s flt req (mr_Size m)
              (copyRequest s req BufferBody (mr_Size m))
              (w_setDefers [ResBody]
                 (w_emit (EvOpen ResBody)
                    (w_setBody
                       (Some {| mr_data := body_input (Body req) (initWorld k st);
                                mr_pos := 0 |})
                       (w_emit EvReadBody (initWorld k st))))) k eq_refl)
    as [[n Hn]|[Hk|Herr]].
  - left. exists n. apply in_app_iff. left. exact Hn.
  - right. left. exact Hk.
  - right. right. exact Herr.
Qed.

(** C7. Header fidelity.  When the capture [b] of attempt [n] is the one
    delivered, [b] stems from a bufferWriter whose header map was freshly
    allocated for that attempt, and the headers of the real response are
    those it had before with the headers of [b] copied in: a value is found
    under a key exactly if it was there before or [b] holds it under a key
    with that canonical form, and when the keys of [b] are canonical (as
    [Header.Set] and [Header.Add] leave them) each key carries the previous
    values followed by the values of [b], verbatim.  Captures of other
    attempts play no part. *)
Theorem delivered_headers_are_those_of_the_final_attempt s flt req (k : ResponseWriter)
    (st : HState) (n : Z) (b : bufferWriter) :
  In (EvDeliver n) (w_trace (ServeHTTP s flt req (initWorld k st))) ->
  In (EvReturn n b) (w_trace (ServeHTTP s flt req (initWorld k st))) ->
  captured_fresh s b /\
  rw_header (w_sink (ServeHTTP s flt req (initWorld k st))) =
    copyHeaders CanonicalHeaderKey (rw_header k) (header b) /\
  (forall key v,
      v ∈ Header_Get (rw_header (w_sink (ServeHTTP s flt req (initWorld k st)))) key <->
      v ∈ Header_Get (rw_header k) key \/
      exists key' vv,
        header b !! key' = Some vv /\ CanonicalHeaderKey key' = key /\ v ∈ vv) /\
  ((forall key, is_Some (header b !! key) -> CanonicalHeaderKey key = key) ->
   forall key,
     Header_Get (rw_header (w_sink (ServeHTTP s flt req (initWorld k st)))) key =
     Header_Get (rw_header k) key ++ Header_Get (header b) key).
Proof.
  intros Hdel Hret.
  destruct (ServeHTTP_delivery s flt req k st n b Hdel Hret) as [Hsink Hfresh].
  rewrite Hsink. cbn. repeat split.
  - exact Hfresh.
  - apply copyHeaders_elem.
  - apply copyHeaders_elem.
  - apply copyHeaders_canonical.
Qed.

(** ** The status code of a capture *)

(** Writing to a bufferWriter leaves its status code alone; only
    [WriteHeader] assigns it, and a fresh bufferWriter starts at 0. *)
Lemma bufferWriter_Write_keeps_code (b : bufferWriter) (buf : list byte) :
  code (fst (bufferWriter_Write b buf)) = code b.
Proof.
  unfold bufferWriter_Write. destruct (wo_Write (buffer b) buf) as [wr res]. reflexivity.
Qed.

(** ** Captures that can be read back *)

(** A capture holds bytes only if a [Write] was accepted. *)
Lemma run_handler_written (p : HandlerProg HState) b m o :
  (wo_data (buffer b) <> [] -> wo_written (buffer b) = true) ->
  wo_data (buffer (run_handler p b m o).1.1.2) <> [] ->
  wo_written (buffer (run_handler p b m o).1.1.2) = true.
Proof.
  revert b m o.
  induction p as [st|f p IH|c p IH|buf k IH|n k IH|f p IH]; intros b m o Hb; simpl.
  - exact Hb.
  - apply IH. exact Hb.
  - apply IH. exact Hb.
  - unfold bufferWriter_Write, wo_Write.
    destruct (_ && _); apply IH; cbn; auto.
  - destruct (mr_Read m n) as [bytes m']. apply IH. exact Hb.
  - apply IH. exact Hb.
Qed.

(** When no response limit is configured, a handler that writes a body
    leaves a capture whose reader can be opened. *)
Lemma capture_readable s flt attempt (h : http_Handler HState) st outreq m :
  always_writes h ->
  maxResponseBodyBytes s <= 0 ->
  f_Reader flt attempt = None ->
  Reader_error flt attempt
    (buffer (run_handler (h st outreq) (fresh_capture_of s) m outreq).1.1.2) = None.
Proof.
  intros Hwrites Hunl Hrd. unfold Reader_error.
  rewrite run_handler_written.
  - exact Hrd.
  - cbn. intros Hne. destruct Hne. reflexivity.
  - apply Hwrites. exact Hunl.
Qed.

(** ** A bounded retry scenario *)

Ltac same_some :=
  repeat match goal with
         | H : Some _ = Some _ |- _ => inversion H; subst; clear H
         end.

(** One pass in a run without failures of the library, for a handler that
    writes a body: the ways through the loop body that such a run cannot
    take are dismissed. *)
Ltac run_no_faults s Hpass Hwrites Hunl Hwr Hrd Hsk :=
  pass_cases Hpass; same_some;
  try (match goal with Hn : w_body _ = None |- _ => cbn in Hn; congruence end);
  try (match goal with Hf : f_NewWriterOnce _ _ = Some _ |- _ =>
         rewrite Hwr in Hf; discriminate Hf end);
  try (match goal with Hf : f_Seek _ _ = Some _ |- _ =>
         rewrite Hsk in Hf; discriminate Hf end);
  try (match goal with
       | Hrun : run_handler (?h0 ?st ?o) _ ?m ?o = _,
         Hr : Reader_error ?flt ?a _ = Some _ |- _ =>
           let Hok := fresh "Hok" in
           pose proof (capture_readable s flt a h0 st o m Hwrites Hunl (Hrd a)) as Hok;
           unfold fresh_capture_of in Hok; rewrite Hrun in Hok; cbn in Hok;
           rewrite Hok in Hr; discriminate Hr
       end).

Lemma attemptLoop_502 s flt req totalSize outreq w (h : http_Handler HState)
    (l : utils_Logger) (k : ResponseWriter) :
  retryPredicate s = Some attempts_le_2_and_502 ->
  next s = Some h -> always_sets h 502 -> always_writes h ->
  maxResponseBodyBytes s <= 0 ->
  log s = Some l ->
  no_faults flt ->
  w_sink w = k -> is_Some (w_body w) ->
  invocations (w_trace (attemptLoop flt req totalSize 1 outreq s w).2)
    = (invocations (w_trace w) + 3)%nat /\
  rw_codes (w_sink (attemptLoop flt req totalSize 1 outreq s w).2) = rw_codes k ++ [502].
Proof.
  intros Hpred Hnext Hcode Hwrites Hunl Hlog (_ & _ & Hwr & Hrd & Hsk) Hsink Hbody.
  set (n0 := invocations (w_trace w)).
  apply (attemptLoop_inv
    (fun attempt _ w =>
       1 <= attempt <= 3 /\
       invocations (w_trace w) = (n0 + Z.to_nat (attempt - 1))%nat /\
       w_sink w = k /\ is_Some (w_body w))
    (fun w => invocations (w_trace w) = (n0 + 3)%nat /\
              rw_codes (w_sink w) = rw_codes k ++ [502])).
  - intros attempt o w1 attempt' o' w1' (Hrange & Hcount & Hs & [m Hb]) Hpass.
    run_no_faults s Hpass Hwrites Hunl Hwr Hrd Hsk.
    match goal with Hrun : run_handler (_ ?st ?o) ?b0 ?m0 ?o = (_, ?b, _, _) |- _ =>
      pose proof (Hcode st o b0 m0) as Hc; rewrite Hrun in Hc; cbn in Hc
    end.
    match goal with Hp : negb _ = false |- _ =>
      unfold attempts_le_2_and_502 in Hp; cbn in Hp; rewrite Hc in Hp;
      apply negb_false_iff, andb_true_iff in Hp; destruct Hp as [Hle _];
      apply Z.leb_le in Hle
    end.
    cbn. rewrite !invocations_app. cbn. repeat split; try lia; eauto.
  - intros attempt o w1 w1' (Hrange & Hcount & Hs & [m Hb]) Hpass.
    run_no_faults s Hpass Hwrites Hunl Hwr Hrd Hsk.
    + match goal with Hlt : (_ <? _) = true |- _ =>
        apply Z.ltb_lt in Hlt; unfold DefaultMaxRetryAttempts in Hlt; lia
      end.
    + match goal with Hrun : run_handler (_ ?st ?o) ?b0 ?m0 ?o = (_, ?b, _, _) |- _ =>
        pose proof (Hcode st o b0 m0) as Hc; rewrite Hrun in Hc; cbn in Hc
      end.
      match goal with Hp : negb _ = true |- _ =>
        unfold attempts_le_2_and_502 in Hp; cbn in Hp; rewrite Hc in Hp;
        apply negb_true_iff, andb_false_iff in Hp; destruct Hp as [Hgt|Hne];
        [apply Z.leb_gt in Hgt | discriminate Hne]
      end.
      cbn. rewrite !invocations_app. cbn. rewrite Hc, Hs.
      split; [|reflexivity].
      assert (attempt = 3) as -> by lia. rewrite Hcount. cbn. lia.
  - repeat split; try lia; auto; subst n0; cbn; lia.
Qed.

(** A request within the limit, whose body the buffer library takes in,
    reaches the loop. *)
Lemma ServeHTTP_enters_loop s flt req (k : ResponseWriter) (st : HState) :
  no_faults flt -> within_limit s req ->
  ServeHTTP s flt req (initWorld k st) =
  run_defers
    (attemptLoop flt req (Z.of_nat (length (inbound_bytes req))) 1
       (copyRequest s req BufferBody (Z.of_nat (length (inbound_bytes req))))
       s (loop_entry k st req)).2.
Proof.
  intros (Hnew & Hsz & _) Hfit.
  assert (Hlimit : checkLimit s req = None).
  { unfold checkLimit. destruct (Z.leb_spec (maxRequestBodyBytes s) 0); [reflexivity|].
    destruct (Z.ltb_spec (maxRequestBodyBytes s) (ContentLength req)); [|reflexivity].
    destruct Hfit as [Hfit|[Hfit _]]; lia. }
  assert (Htakes : New_error flt (maxRequestBodyBytes s) (memRequestBodyBytes s)
                     (Z.of_nat (length (inbound_bytes req))) = None).
  { unfold New_error. rewrite Hnew.
    destruct (Z.ltb_spec 0 (maxRequestBodyBytes s)); [|reflexivity].
    destruct (Z.ltb_spec (maxRequestBodyBytes s) (Z.of_nat (length (inbound_bytes req))));
      [|rewrite andb_false_r; reflexivity].
    destruct Hfit as [Hfit|[_ Hfit]]; lia. }
  unfold ServeHTTP, ServeHTTP_body, multibuf_New, body_Size, defer, self, mbind, M_bind.
  rewrite Hlimit, body_input_init, Htakes. cbn. rewrite Hsz. reflexivity.
Qed.

(** C5 (amended). With the retry predicate
    [Attempts() <= 2 && ResponseCode() == 502] and a wrapped handler that on
    every invocation sets status 502 and writes a body of at least one byte,
    a request is dispatched exactly 3 times and the one status written to
    the real response writer is 502.  This is for a request within the
    request limit, with no response size limit configured and a buffer
    library that reports no error. *)
Theorem retry_on_502_invokes_three_times s flt req (k : ResponseWriter) (st : HState)
    (h : http_Handler HState) (l : utils_Logger) :
  retryPredicate s = Some attempts_le_2_and_502 ->
  next s = Some h ->
  always_sets h 502 ->
  always_writes h ->
  maxResponseBodyBytes s <= 0 ->
  log s = Some l ->
  no_faults flt ->
  within_limit s req ->
  invocations (w_trace (ServeHTTP s flt req (initWorld k st))) = 3%nat /\
  rw_codes (w_sink (ServeHTTP s flt req (initWorld k st))) = rw_codes k ++ [502].
Proof.
  intros Hpred Hnext Hcode Hwrites Hunl Hlog Hnf Hfit.
  rewrite (ServeHTTP_enters_loop s flt req k st Hnf Hfit).
  rewrite run_defers_trace, run_defers_sink, invocations_app, invocations_closes.
  edestruct (attemptLoop_502 s flt req) as [Hcount Hcodes];
    [exact Hpred|exact Hnext|exact Hcode|exact Hwrites|exact Hunl|exact Hlog|
     exact Hnf|reflexivity| |].
  2: { rewrite Hcount, Hcodes. cbn. split; reflexivity. }
  cbn. eauto.
Qed.

(** * Further properties of the code *)

(** ** What a run leaves in the trace *)

Ltac in_old := repeat (apply in_or_app; left); eassumption.

(** The loop only adds to the trace. *)
Lemma attemptLoop_extends s flt req totalSize attempt outreq w :
  exists evs,
    w_trace (attemptLoop flt req totalSize attempt outreq s w).2 = w_trace w ++ evs.
Proof.
  apply (attemptLoop_inv
    (fun _ _ w1 => exists evs, w_trace w1 = w_trace w ++ evs)
    (fun w1 => exists evs, w_trace w1 = w_trace w ++ evs)).
  - intros a o w1 a' o' w1' [evs Hevs] Hpass. pass_cases Hpass. cbn.
    rewrite Hevs, <- !app_assoc. eexists. reflexivity.
  - intros a o w1 w1' [evs Hevs] Hpass.
    pass_cases Hpass; cbn; rewrite Hevs, <- ?app_assoc; eexists; reflexivity.
  - exists []. rewrite app_nil_r. reflexivity.
Qed.

Lemma checkLimit_None s req :
  checkLimit s req = None <->
  ~ (0 < maxRequestBodyBytes s /\ maxRequestBodyBytes s < ContentLength req).
Proof.
  unfold checkLimit.
  destruct (Z.leb_spec (maxRequestBodyBytes s) 0);
    [|destruct (Z.ltb_spec (maxRequestBodyBytes s) (ContentLength req))];
    split; intros; try discriminate; try reflexivity; lia.
Qed.

(** The request body is read exactly when the declared length passes the
    limit check: a limit of zero or below switches the check off, a length
    equal to the limit passes, and so does an unknown length (-1). *)
Theorem body_is_read_iff_declared_length_passes s flt req (k : ResponseWriter)
    (st : HState) :
  In EvReadBody (w_trace (ServeHTTP s flt req (initWorld k st))) <->
  ~ (0 < maxRequestBodyBytes s /\ maxRequestBodyBytes s < ContentLength req).
Proof.
  rewrite <- checkLimit_None.
  unfold ServeHTTP. rewrite run_defers_trace, in_app_iff. split.
  - intros [Hin|Hin].
    + revert Hin. serve_cases; cbn; intros Hin; try reflexivity; in_trace Hin.
    + apply In_map_close in Hin. destruct Hin as (r & Hr & _). discriminate Hr.
  - intros Hlimit. left. serve_cases; cbn; try discriminate;
      lazymatch goal with
      | |- context [attemptLoop] => idtac
      | _ => rewrite ?in_app_iff; cbn; tauto
      end.
    match goal with
    | |- In _ (w_trace (attemptLoop ?f ?r ?t ?a ?o ?s ?w).2) =>
        destruct (attemptLoop_extends s f r t a o w) as [evs ->]
    end.
    cbn. left. reflexivity.
Qed.

(** ** One response per request *)

Lemma responses_app tr1 tr2 :
  responses (tr1 ++ tr2) = (responses tr1 + responses tr2)%nat.
Proof.
  induction tr1 as [|e tr1 IH]; simpl; [reflexivity|]. rewrite IH. lia.
Qed.

(** Projections of a world after emits and updates, keeping the shape of
    the trace. *)
Ltac world_fields :=
  cbn [w_trace w_sink w_hstate w_body w_defers
       w_emit w_setSink w_setBody w_setHState w_setDefers initWorld snd fst].

Ltac world_fields_all :=
  cbn [w_trace w_sink w_hstate w_body w_defers
       w_emit w_setSink w_setBody w_setHState w_setDefers initWorld snd fst] in *.

Ltac end_goal Hr Hp :=
  first
    [ left; do 2 eexists; split; [reflexivity|];
      split; [reflexivity|];
      split; [rewrite ?responses_app; cbn; rewrite ?Hr; reflexivity
             | let Hin := fresh "Hin" in
               intros Hin; in_trace Hin; exact (Hp Hin)]
    | right; eexists; split; [reflexivity|];
      rewrite ?responses_app; cbn; rewrite ?Hr; reflexivity ].

Lemma attemptLoop_ends s flt req totalSize outreq w :
  responses (w_trace w) = 0%nat -> ~ In EvPanic (w_trace w) ->
  ends_with_response (w_trace (attemptLoop flt req totalSize 1 outreq s w).2).
Proof.
  intros Hr0 Hp0.
  apply (attemptLoop_inv
    (fun _ _ w => responses (w_trace w) = 0%nat /\ ~ In EvPanic (w_trace w))
    (fun w => ends_with_response (w_trace w))); [| |auto].
  - intros a o w1 a' o' w1' [Hr Hp] Hpass. pass_cases Hpass. world_fields. split.
    + rewrite !responses_app. cbn. rewrite Hr. reflexivity.
    + intros Hin. in_trace Hin. exact (Hp Hin).
  - intros a o w1 w1' [Hr Hp] Hpass.
    pass_cases Hpass; world_fields; unfold ends_with_response; end_goal Hr Hp.
Qed.

Lemma ServeHTTP_body_ends s flt req (k : ResponseWriter) (st : HState) :
  ends_with_response (w_trace (snd (ServeHTTP_body flt req s (initWorld k st)))).
Proof.
  assert (Hr : responses (w_trace (initWorld k st)) = 0%nat) by reflexivity.
  assert (Hp : ~ In EvPanic (w_trace (initWorld k st))) by (intros []).
  serve_cases; world_fields;
    lazymatch goal with
    | |- context [attemptLoop] => idtac
    | _ => unfold ends_with_response; end_goal Hr Hp
    end.
  apply attemptLoop_ends; world_fields.
  - reflexivity.
  - intros Hin. in_trace Hin.
Qed.

(** Every run produces its response exactly once and as its last act
    before the buffers are released: either one delivery or one call of the
    error handler, followed by nothing but the deferred closes.  The only
    other way out is a nil dereference, before any response. *)
Theorem one_response_then_release s flt req (k : ResponseWriter) (st : HState) :
  (exists pre e ds,
      w_trace (ServeHTTP s flt req (initWorld k st)) = pre ++ e :: map EvClose ds /\
      is_response e = true /\ responses pre = 0%nat /\ ~ In EvPanic pre) \/
  (exists pre ds,
      w_trace (ServeHTTP s flt req (initWorld k st)) = pre ++ EvPanic :: map EvClose ds /\
      responses pre = 0%nat).
Proof.
  unfold ServeHTTP. rewrite run_defers_trace.
  destruct (ServeHTTP_body_ends s flt req k st)
    as [(pre & e & -> & He & Hr & Hp)|(pre & -> & Hr)].
  - left. exists pre, e, (w_defers (snd (ServeHTTP_body flt req s (initWorld k st)))).
    rewrite <- app_assoc. auto.
  - right. exists pre, (w_defers (snd (ServeHTTP_body flt req s (initWorld k st)))).
    rewrite <- app_assoc. auto.
Qed.

(** ** Nil fields *)

Lemma attemptLoop_no_panic s flt req totalSize outreq w
    (h : http_Handler HState) (l : utils_Logger) (eh : utils_ErrorHandler) :
  next s = Some h -> log s = Some l -> errHandler s = Some eh ->
  is_Some (w_body w) -> ~ In EvPanic (w_trace w) ->
  ~ In EvPanic (w_trace (attemptLoop flt req totalSize 1 outreq s w).2).
Proof.
  intros Hnext Hlog Herr Hbody Hp0.
  apply (attemptLoop_inv
    (fun _ _ w => is_Some (w_body w) /\ ~ In EvPanic (w_trace w))
    (fun w => ~ In EvPanic (w_trace w))); [| |auto].
  - intros a o w1 a' o' w1' [[m Hb] Hp] Hpass.
    pass_cases Hpass. world_fields. split; [eauto|].
    intros Hin. in_trace Hin. exact (Hp Hin).
  - intros a o w1 w1' [[m Hb] Hp] Hpass.
    pass_cases Hpass; world_fields_all; try congruence;
      intros Hin; in_trace Hin; exact (Hp Hin).
Qed.

(** With a wrapped handler, a logger and an error handler in place, as
    [New] leaves them when it is given a handler, [ServeHTTP] never calls
    through a nil field of its Streamer or a nil request buffer: every call
    of [s.next], [s.log] and [s.errHandler] finds the field set, and the
    buffer asked for its size, rewound and handed on is the one
    [multibuf.New] returned. *)
Theorem no_nil_field_is_dereferenced s flt req (k : ResponseWriter) (st : HState)
    (h : http_Handler HState) (l : utils_Logger) (eh : utils_ErrorHandler) :
  next s = Some h -> log s = Some l -> errHandler s = Some eh ->
  ~ In EvPanic (w_trace (ServeHTTP s flt req (initWorld k st))).
Proof.
  intros Hnext Hlog Herr.
  unfold ServeHTTP. rewrite run_defers_trace, in_app_iff.
  intros [Hin|Hin].
  2: { apply In_map_close in Hin. destruct Hin as (r & Hr & _). discriminate Hr. }
  revert Hin. serve_cases; world_fields_all; try congruence; intros Hin;
    lazymatch type of Hin with
    | context [attemptLoop] => idtac
    | _ => in_trace Hin
    end.
  revert Hin. eapply attemptLoop_no_panic; try eassumption; world_fields.
  - eauto.
  - intros Hin. in_trace Hin.
Qed.

(** ** Order of release *)

(** Buffers are closed in the reverse order of their opening, after
    everything else; the request buffer, which is opened before any
    capture, is therefore closed last. *)
Theorem buffers_are_released_in_reverse_order s flt req (k : ResponseWriter)
    (st : HState) :
  exists body,
    w_trace (ServeHTTP s flt req (initWorld k st)) =
      body ++ map EvClose (rev (opens body)) /\
    (forall r, ~ In (EvClose r) body) /\
    (opens body = [] \/ exists rest, opens body = ResBody :: rest).
Proof.
  unfold ServeHTTP. rewrite run_defers_trace.
  destruct (ServeHTTP_body_resources s flt req k st) as (Hnc & Hdef & _).
  exists (w_trace (snd (ServeHTTP_body flt req s (initWorld k st)))).
  rewrite Hdef. split; [reflexivity|]. split; [exact Hnc|].
  clear. serve_cases; world_fields;
    lazymatch goal with
    | |- context [attemptLoop] => idtac
    | _ => rewrite ?opens_app; cbn; eauto
    end.
  match goal with
  | |- context [attemptLoop ?f ?r ?t ?a ?o ?s ?w] =>
      destruct (attemptLoop_extends s f r t a o w) as [evs ->]
  end.
  world_fields. rewrite !opens_app. cbn. eauto.
Qed.

(** ** Numbering of attempts *)

Lemma call_attempts_app tr1 tr2 :
  call_attempts (tr1 ++ tr2) = call_attempts tr1 ++ call_attempts tr2.
Proof.
  induction tr1 as [|e tr1 IH]; simpl; [reflexivity|].
  destruct e; simpl; rewrite ?IH; reflexivity.
Qed.

Lemma call_attempts_length tr : length (call_attempts tr) = invocations tr.
Proof.
  induction tr as [|e tr IH]; simpl; [reflexivity|].
  destruct e; simpl; rewrite ?IH; reflexivity.
Qed.

Lemma call_attempts_closes (ds : list Resource) : call_attempts (map EvClose ds) = [].
Proof. induction ds; simpl; auto. Qed.

Lemma numbered_next (a : Z) (l : list Z) :
  1 <= a ->
  l = map Z.of_nat (seq 1 (Z.to_nat (a - 1))) ->
  l ++ [a] = map Z.of_nat (seq 1 (Z.to_nat (a + 1 - 1))).
Proof.
  intros Ha ->.
  replace (Z.to_nat (a + 1 - 1)) with (S (Z.to_nat (a - 1))) by lia.
  rewrite seq_S, map_app. cbn. f_equal. f_equal. lia.
Qed.

Ltac calls_norm :=
  world_fields; rewrite ?call_attempts_app; cbn [call_attempts]; rewrite ?app_nil_r.

Lemma attemptLoop_numbering s flt req totalSize outreq w :
  call_attempts (w_trace w) = [] ->
  exists n,
    call_attempts (w_trace (attemptLoop flt req totalSize 1 outreq s w).2) =
    map Z.of_nat (seq 1 n).
Proof.
  intros Hnone.
  apply (attemptLoop_inv
    (fun a _ w => 1 <= a /\
       call_attempts (w_trace w) = map Z.of_nat (seq 1 (Z.to_nat (a - 1))))
    (fun w => exists n, call_attempts (w_trace w) = map Z.of_nat (seq 1 n))).
  - intros a o w1 a' o' w1' [Ha Hc] Hpass. pass_cases Hpass. calls_norm.
    split; [lia|]. apply numbered_next; assumption.
  - intros a o w1 w1' [Ha Hc] Hpass.
    pass_cases Hpass; calls_norm;
      first [ eexists; exact Hc
            | eexists; apply numbered_next; eassumption ].
  - split; [lia|]. rewrite Hnone. reflexivity.
Qed.

(** The invocations of the wrapped handler are numbered 1, 2, 3, ...
    without gap or repetition. *)
Theorem attempts_are_numbered_from_one s flt req (k : ResponseWriter) (st : HState) :
  call_attempts (w_trace (ServeHTTP s flt req (initWorld k st))) =
  map Z.of_nat (seq 1 (invocations (w_trace (ServeHTTP s flt req (initWorld k st))))).
Proof.
  assert (Hex : exists n,
    call_attempts (w_trace (ServeHTTP s flt req (initWorld k st))) = map Z.of_nat (seq 1 n)).
  { unfold ServeHTTP. rewrite run_defers_trace, call_attempts_app, call_attempts_closes,
      app_nil_r.
    serve_cases; world_fields;
      lazymatch goal with
      | |- context [attemptLoop] => idtac
      | _ => exists 0%nat; reflexivity
      end.
    apply attemptLoop_numbering. reflexivity. }
  destruct Hex as [n Hn].
  rewrite <- call_attempts_length, Hn, length_map, length_seq. reflexivity.
Qed.

(** ** What the retry predicate is shown *)

Ltac context_goal Ha Hc :=
  let c := fresh "c" in
  let Hin := fresh "Hin" in
  intros c Hin; in_trace Hin;
  lazymatch type of Hin with
  | In _ _ =>
      destruct (Hc c Hin) as (? & ? & ? & ? & ?b & ?Hb & ?);
      refine (conj _ (conj _ (conj _ (conj _ (ex_intro _ _ (conj _ _))))));
      [assumption | assumption | assumption | assumption | in_old | assumption]
  | _ =>
      unify_eqs; cbn;
      repeat match goal with
             | Hlt : (_ <? _) = false |- _ => apply Z.ltb_ge in Hlt
             end;
      refine (conj _ (conj _ (conj _ (conj _ (ex_intro _ _ (conj _ _))))));
      [ reflexivity
      | congruence
      | lia
      | match goal with Hp : retryPredicate _ = Some _ |- _ => rewrite Hp; eauto end
      | rewrite !in_app_iff; cbn; tauto
      | reflexivity ]
  end.

Lemma attemptLoop_contexts s flt req totalSize outreq w :
  contexts_follow_returns s req (w_trace w) ->
  contexts_follow_returns s req (w_trace (attemptLoop flt req totalSize 1 outreq s w).2).
Proof.
  intros H0.
  apply (attemptLoop_inv
    (fun a _ w => 1 <= a /\ contexts_follow_returns s req (w_trace w))
    (fun w => contexts_follow_returns s req (w_trace w))); [| |split; [lia|exact H0]].
  - intros a o w1 a' o' w1' [Ha Hc] Hpass. pass_cases Hpass. world_fields.
    split; [lia|]. unfold contexts_follow_returns. context_goal Ha Hc.
  - intros a o w1 w1' [Ha Hc] Hpass.
    pass_cases Hpass; world_fields; unfold contexts_follow_returns; context_goal Ha Hc.
Qed.

Lemma ServeHTTP_contexts s flt req (k : ResponseWriter) (st : HState) :
  contexts_follow_returns s req (w_trace (ServeHTTP s flt req (initWorld k st))).
Proof.
  assert (Hbody : contexts_follow_returns s req
            (w_trace (snd (ServeHTTP_body flt req s (initWorld k st))))).
  { serve_cases; world_fields;
      lazymatch goal with
      | |- context [attemptLoop] => idtac
      | _ => intros c Hin; in_trace Hin
      end.
    apply attemptLoop_contexts. world_fields. intros c Hin. in_trace Hin. }
  unfold ServeHTTP. rewrite run_defers_trace.
  intros c Hin. apply in_app_iff in Hin. destruct Hin as [Hin|Hin].
  - destruct (Hbody c Hin) as (H1 & H2 & H3 & H4 & b & Hb & H5).
    refine (conj H1 (conj H2 (conj H3 (conj H4 (ex_intro _ b (conj _ H5)))))).
    apply in_app_iff. left. exact Hb.
  - apply In_map_close in Hin. destruct Hin as (r & Hr & _). discriminate Hr.
Qed.

(** Whenever the retry predicate is evaluated, a predicate is configured
    and its context holds the inbound request (not the reframed one), the
    Streamer's logger, the number of the attempt that just returned, which
    lies between 1 and the retry ceiling, and the status code that attempt
    left in its capture. *)
Theorem predicate_sees_the_attempt_that_returned s flt req (k : ResponseWriter)
    (st : HState) (c : context) :
  In (EvPredicate c) (w_trace (ServeHTTP s flt req (initWorld k st))) ->
  ctx_r c = req /\ ctx_log c = log s /\
  1 <= ctx_attempt c <= DefaultMaxRetryAttempts /\
  is_Some (retryPredicate s) /\
  exists b,
    In (EvReturn (ctx_attempt c) b) (w_trace (ServeHTTP s flt req (initWorld k st))) /\
    ctx_responseCode c = code b.
Proof. apply ServeHTTP_contexts. Qed.

(** ** Retries happen on request only *)

Lemma retry_requested_mono s tr tr' a :
  (forall e, In e tr -> In e tr') ->
  retry_requested s tr a -> retry_requested s tr' a.
Proof.
  intros Hincl [Ha|(p & c & Hp & Hin & Hc & Ht)]; [left; exact Ha|].
  right. exists p, c. auto.
Qed.

Ltac requested_goal Hreq Hcalls :=
  let Hin := fresh "Hin" in
  intros ? ? ? Hin; in_trace Hin;
  lazymatch type of Hin with
  | In _ _ =>
      eapply retry_requested_mono; [|eapply Hcalls; exact Hin];
      let He := fresh "He" in intros ? He; in_old
  | _ =>
      unify_eqs;
      eapply retry_requested_mono; [|exact Hreq];
      let He := fresh "He" in intros ? He; in_old
  end.

Lemma attemptLoop_requested s flt req totalSize outreq w :
  calls_requested s (w_trace w) ->
  calls_requested s (w_trace (attemptLoop flt req totalSize 1 outreq s w).2).
Proof.
  intros H0.
  apply (attemptLoop_inv
    (fun a _ w => retry_requested s (w_trace w) a /\ calls_requested s (w_trace w))
    (fun w => calls_requested s (w_trace w))); [| |split; [left; reflexivity|exact H0]].
  - intros a o w1 a' o' w1' [Hreq Hcalls] Hpass. pass_cases Hpass. world_fields. split.
    + right.
      match goal with
      | Hp : retryPredicate s = Some ?p, Hn : negb (?p ?c) = false |- _ =>
          exists p, c; split; [exact Hp|]; split; [|split]
      end.
      * rewrite !in_app_iff. cbn. tauto.
      * cbn. lia.
      * match goal with Hn : negb _ = false |- _ => apply negb_false_iff in Hn; exact Hn end.
    + unfold calls_requested. requested_goal Hreq Hcalls.
  - intros a o w1 w1' [Hreq Hcalls] Hpass.
    pass_cases Hpass; world_fields; unfold calls_requested; requested_goal Hreq Hcalls.
Qed.

Lemma ServeHTTP_requested s flt req (k : ResponseWriter) (st : HState) :
  calls_requested s (w_trace (ServeHTTP s flt req (initWorld k st))).
Proof.
  assert (Hbody : calls_requested s
            (w_trace (snd (ServeHTTP_body flt req s (initWorld k st))))).
  { serve_cases; world_fields;
      lazymatch goal with
      | |- context [attemptLoop] => idtac
      | _ => intros a' o' m' Hin; in_trace Hin
      end.
    apply attemptLoop_requested. world_fields. intros a' o' m' Hin. in_trace Hin. }
  unfold ServeHTTP. rewrite run_defers_trace.
  intros a o m Hin. apply in_app_iff in Hin. destruct Hin as [Hin|Hin].
  - eapply retry_requested_mono; [|exact (Hbody a o m Hin)].
    intros e He. apply in_app_iff. left. exact He.
  - apply In_map_close in Hin. destruct Hin as (r & Hr & _). discriminate Hr.
Qed.

(** The wrapped handler is invoked again only on request: every attempt
    after the first was preceded by an evaluation of the configured
    predicate that answered true for the attempt before it. *)
Theorem every_retry_was_requested_by_the_predicate s flt req (k : ResponseWriter)
    (st : HState) (a : Z) (o : Request) (m : MultiReader) :
  In (EvCall a o m) (w_trace (ServeHTTP s flt req (initWorld k st))) ->
  a = 1 \/
  exists p c,
    retryPredicate s = Some p /\
    In (EvPredicate c) (w_trace (ServeHTTP s flt req (initWorld k st))) /\
    ctx_attempt c = a - 1 /\ p c = true.
Proof. apply ServeHTTP_requested. Qed.

(** ** Runs without failure *)

(** With no retry predicate the wrapped handler is invoked exactly once,
    whatever status code it sets, and the predicate machinery is never
    consulted.  When the invocation wrote a body, the real writer receives
    what it captured; when it wrote nothing, no reader can be had from the
    capture and the error handler answers instead.  No response size limit
    is configured, so every [Write] is accepted. *)
Theorem without_predicate_the_handler_is_invoked_once s flt req (k : ResponseWriter)
    (st : HState) (h : http_Handler HState) (l : utils_Logger) (eh : utils_ErrorHandler) :
  retryPredicate s = None ->
  next s = Some h ->
  log s = Some l ->
  errHandler s = Some eh ->
  maxResponseBodyBytes s <= 0 ->
  no_faults flt ->
  within_limit s req ->
  invocations (w_trace (ServeHTTP s flt req (initWorld k st))) = 1%nat /\
  observed_codes (w_trace (ServeHTTP s flt req (initWorld k st))) = [] /\
  w_hstate (ServeHTTP s flt req (initWorld k st)) = (first_invocation s h st req).1.1.1 /\
  (wo_data (buffer (first_invocation s h st req).1.1.2) <> [] ->
     w_sink (ServeHTTP s flt req (initWorld k st)) =
       delivered k (first_invocation s h st req).1.1.2) /\
  (wo_written (buffer (first_invocation s h st req).1.1.2) = false ->
     w_sink (ServeHTTP s flt req (initWorld k st)) =
       eh k req (Some (OtherError "no data ready")) /\
     ~ In (EvDeliver 1) (w_trace (ServeHTTP s flt req (initWorld k st)))).
Proof.
  intros Hpred Hnext Hlog Herr Hunl Hnf Hfit.
  rewrite (ServeHTTP_enters_loop s flt req k st Hnf Hfit).
  destruct Hnf as (_ & _ & Hwr & Hrd & _).
  rewrite attemptLoop_step.
  pose proof (run_handler_written
    (h st (copyRequest s req BufferBody (Z.of_nat (length (inbound_bytes req)))))
    (fresh_capture_of s) {| mr_data := inbound_bytes req; mr_pos := 0 |}
    (copyRequest s req BufferBody (Z.of_nat (length (inbound_bytes req))))) as Hwritten.
  unfold first_invocation, attemptBody, multibuf_NewWriterOnce, next_ServeHTTP,
    writer_Reader, Reader_error, finalizes, deliver, log_call, errHandler_ServeHTTP,
    defer, emit, return_, self, mbind, M_bind, mret, M_ret.
  rewrite Hwr. cbn. rewrite Hnext. cbn.
  unfold fresh_capture_of in *.
  destruct (run_handler _ _ _ _) as [[[st' b] m'] o']. cbn in *. rewrite Hlog.
  destruct (wo_written (buffer b)) eqn:Hw.
  - rewrite Hrd. cbn. rewrite Hpred. cbn. unfold run_defers. cbn.
    repeat split; try reflexivity; intros; discriminate.
  - cbn. rewrite Hlog, Herr. cbn. unfold run_defers. cbn.
    repeat split; try reflexivity.
    + intros Hdata. apply Hwritten in Hdata; [discriminate Hdata|].
      intros Hne. destruct Hne. reflexivity.
    + intros Hin. in_trace Hin.
Qed.

Lemma observed_codes_app tr1 tr2 :
  observed_codes (tr1 ++ tr2) = observed_codes tr1 ++ observed_codes tr2.
Proof.
  induction tr1 as [|e tr1 IH]; simpl; [reflexivity|].
  destruct e; simpl; rewrite ?IH; reflexivity.
Qed.

Lemma observed_codes_closes (ds : list Resource) : observed_codes (map EvClose ds) = [].
Proof. induction ds; simpl; auto. Qed.

Lemma attemptLoop_eager s flt req totalSize outreq w (p : hpredicate)
    (h : http_Handler HState) (l : utils_Logger) :
  retryPredicate s = Some p -> (forall c, p c = true) ->
  next s = Some h -> always_writes h -> maxResponseBodyBytes s <= 0 ->
  log s = Some l -> no_faults flt ->
  is_Some (w_body w) ->
  invocations (w_trace (attemptLoop flt req totalSize 1 outreq s w).2)
    = (invocations (w_trace w) + 11)%nat /\
  length (observed_codes (w_trace (attemptLoop flt req totalSize 1 outreq s w).2))
    = (length (observed_codes (w_trace w)) + 10)%nat /\
  In (EvDeliver 11) (w_trace (attemptLoop flt req totalSize 1 outreq s w).2).
Proof.
  intros Hpred Hall Hnext Hwrites Hunl Hlog (_ & _ & Hwr & Hrd & Hsk) Hbody.
  set (n0 := invocations (w_trace w)).
  set (m0 := length (observed_codes (w_trace w))).
  apply (attemptLoop_inv
    (fun attempt _ w =>
       1 <= attempt <= 11 /\
       invocations (w_trace w) = (n0 + Z.to_nat (attempt - 1))%nat /\
       length (observed_codes (w_trace w)) = (m0 + Z.to_nat (attempt - 1))%nat /\
       is_Some (w_body w))
    (fun w => invocations (w_trace w) = (n0 + 11)%nat /\
              length (observed_codes (w_trace w)) = (m0 + 10)%nat /\
              In (EvDeliver 11) (w_trace w))).
  - intros attempt o w1 attempt' o' w1' (Hrange & Hcount & Hobs & [m Hb]) Hpass.
    run_no_faults s Hpass Hwrites Hunl Hwr Hrd Hsk.
    match goal with Hlt : (_ <? _) = false |- _ =>
      apply Z.ltb_ge in Hlt; unfold DefaultMaxRetryAttempts in Hlt
    end.
    cbn. rewrite !invocations_app, !observed_codes_app, !length_app. cbn.
    repeat split; try lia; eauto.
  - intros attempt o w1 w1' (Hrange & Hcount & Hobs & [m Hb]) Hpass.
    run_no_faults s Hpass Hwrites Hunl Hwr Hrd Hsk.
    + match goal with Hlt : (_ <? _) = true |- _ =>
        apply Z.ltb_lt in Hlt; unfold DefaultMaxRetryAttempts in Hlt
      end.
      assert (attempt = 11) as -> by lia.
      cbn. rewrite !invocations_app, !observed_codes_app, !length_app. cbn.
      repeat split; try lia. rewrite !in_app_iff. cbn. tauto.
    + match goal with Hn : negb (p ?c) = true |- _ => rewrite (Hall c) in Hn; discriminate Hn end.
  - repeat split; try lia; auto; subst n0 m0; cbn; lia.
Qed.

(** The ceiling is reached: with a predicate that always answers true and
    a handler that writes a body on every invocation, the wrapped handler is
    invoked exactly eleven times, the predicate is asked exactly ten times,
    and the capture of attempt 11 is delivered without asking it again (no
    response size limit configured, no error from the buffer library). *)
Theorem eager_predicate_stops_at_attempt_eleven s flt req (k : ResponseWriter)
    (st : HState) (p : hpredicate) (h : http_Handler HState) (l : utils_Logger) :
  retryPredicate s = Some p ->
  (forall c, p c = true) ->
  next s = Some h ->
  always_writes h ->
  maxResponseBodyBytes s <= 0 ->
  log s = Some l ->
  no_faults flt ->
  within_limit s req ->
  invocations (w_trace (ServeHTTP s flt req (initWorld k st))) = 11%nat /\
  length (observed_codes (w_trace (ServeHTTP s flt req (initWorld k st)))) = 10%nat /\
  In (EvDeliver 11) (w_trace (ServeHTTP s flt req (initWorld k st))).
Proof.
  intros Hpred Hall Hnext Hwrites Hunl Hlog Hnf Hfit.
  rewrite (ServeHTTP_enters_loop s flt req k st Hnf Hfit).
  rewrite run_defers_trace, invocations_app, invocations_closes,
    observed_codes_app, observed_codes_closes, app_nil_r, in_app_iff.
  edestruct (attemptLoop_eager s flt req) as (Hc & Ho & Hd);
    [exact Hpred|exact Hall|exact Hnext|exact Hwrites|exact Hunl|exact Hlog|exact Hnf| |].
  2: { rewrite Hc, Ho. cbn. repeat split; try reflexivity. left. exact Hd. }
  cbn. eauto.
Qed.

(** ** What is delivered *)

(** The status and the body that reach the real writer are those of the
    delivered capture: one [WriteHeader] with its code, and its buffered
    bytes appended; nothing written during other attempts is included. *)
Theorem delivered_status_and_body_are_the_final_capture s flt req (k : ResponseWriter)
    (st : HState) (n : Z) (b : bufferWriter) :
  In (EvDeliver n) (w_trace (ServeHTTP s flt req (initWorld k st))) ->
  In (EvReturn n b) (w_trace (ServeHTTP s flt req (initWorld k st))) ->
  rw_codes (w_sink (ServeHTTP s flt req (initWorld k st))) = rw_codes k ++ [code b] /\
  rw_body (w_sink (ServeHTTP s flt req (initWorld k st))) =
    rw_body k ++ wo_data (buffer b).
Proof.
  intros Hdel Hret.
  destruct (ServeHTTP_delivery s flt req k st n b Hdel Hret) as [-> _].
  split; reflexivity.
Qed.

Lemma attemptLoop_delivers_readable s flt req totalSize outreq w :
  (forall n b, In (EvReturn n b) (w_trace w) -> n < 1) ->
  (forall n, ~ In (EvDeliver n) (w_trace w)) ->
  forall n b,
    In (EvDeliver n) (w_trace (attemptLoop flt req totalSize 1 outreq s w).2) ->
    In (EvReturn n b) (w_trace (attemptLoop flt req totalSize 1 outreq s w).2) ->
    Reader_error flt n (buffer b) = None.
Proof.
  intros Hret Hdel.
  apply (attemptLoop_inv
    (fun attempt _ w =>
       (forall n b, In (EvReturn n b) (w_trace w) -> n < attempt) /\
       (forall n, ~ In (EvDeliver n) (w_trace w)))
    (fun w => forall n b,
       In (EvDeliver n) (w_trace w) -> In (EvReturn n b) (w_trace w) ->
       Reader_error flt n (buffer b) = None)); [| |auto].
  - intros attempt o w1 attempt' o' w1' (Hr & Hd) Hpass.
    pass_cases Hpass. world_fields. split.
    + intros n b' Hin. in_trace Hin; unify_eqs; try lia.
      apply Hr in Hin. lia.
    + intros n Hin. in_trace Hin. eapply Hd; eassumption.
  - intros attempt o w1 w1' (Hr & Hd) Hpass.
    pass_cases Hpass; world_fields; intros n b' Hin1 Hin2;
      in_trace Hin1; try (exfalso; eapply Hd; eassumption); unify_eqs;
      in_trace Hin2; unify_eqs;
      try (apply Hr in Hin2; lia);
      assumption.
Qed.

(** Only a capture that was written to is ever delivered: the capture of
    the delivered attempt has accepted a [Write], and its reader was had
    without error.  A response without a body therefore never reaches the
    real writer through the finalize branch. *)
Theorem only_written_captures_are_delivered s flt req (k : ResponseWriter)
    (st : HState) (n : Z) (b : bufferWriter) :
  In (EvDeliver n) (w_trace (ServeHTTP s flt req (initWorld k st))) ->
  In (EvReturn n b) (w_trace (ServeHTTP s flt req (initWorld k st))) ->
  wo_written (buffer b) = true /\ f_Reader flt n = None.
Proof.
  intros Hin1 Hin2.
  assert (Hok : Reader_error flt n (buffer b) = None).
  { revert Hin1 Hin2.
    unfold ServeHTTP. rewrite run_defers_trace, !in_app_iff.
    intros [Hin1|Hin1] [Hin2|Hin2];
      try (apply In_map_close in Hin1; destruct Hin1 as (? & ? & _); discriminate);
      try (apply In_map_close in Hin2; destruct Hin2 as (? & ? & _); discriminate).
    revert Hin1 Hin2. serve_cases; world_fields; intros Hin1 Hin2;
      lazymatch type of Hin1 with
      | context [attemptLoop] => idtac
      | _ => in_trace Hin1
      end.
    eapply attemptLoop_delivers_readable; [| |exact Hin1|exact Hin2].
    - intros n' b' Hin. in_trace Hin.
    - intros n' Hin. in_trace Hin. }
  unfold Reader_error in Hok.
  destruct (wo_written (buffer b)); [auto | discriminate Hok].
Qed.

(** The wrapped handler is only ever invoked after the whole body has been
    buffered: a run with an invocation starts by reading the body and
    opening the request buffer. *)
Theorem handler_runs_only_after_buffering s flt req (k : ResponseWriter) (st : HState)
    (a : Z) (o : Request) (m : MultiReader) :
  In (EvCall a o m) (w_trace (ServeHTTP s flt req (initWorld k st))) ->
  exists rest,
    w_trace (ServeHTTP s flt req (initWorld k st)) = EvReadBody :: EvOpen ResBody :: rest.
Proof.
  unfold ServeHTTP. rewrite run_defers_trace, in_app_iff.
  intros [Hin|Hin].
  2: { apply In_map_close in Hin. destruct Hin as (r & Hr & _). discriminate Hr. }
  revert Hin. serve_cases; world_fields; intros Hin;
    lazymatch type of Hin with
    | context [attemptLoop] => idtac
    | _ => in_trace Hin
    end.
  clear Hin.
  match goal with
  | |- context [attemptLoop ?f ?r ?t ?a ?o ?s ?w] =>
      destruct (attemptLoop_extends s f r t a o w) as [evs ->]
  end.
  world_fields. cbn. eexists. reflexivity.
Qed.

(** ** copyHeaders *)

(** [copyHeaders] only appends: under every key the destination keeps its
    values, in order, in front, and each value added comes from the source,
    from a key with that canonical form.  An empty source changes nothing. *)
Theorem copyHeaders_only_appends canon (dst src : Header) (k : string) :
  (exists added,
      Header_Get (copyHeaders canon dst src) k = Header_Get dst k ++ added /\
      forall v, v ∈ added ->
        exists k' vv, src !! k' = Some vv /\ canon k' = k /\ v ∈ vv) /\
  copyHeaders canon dst ∅ = dst.
Proof.
  split; [|apply map_fold_empty].
  unfold copyHeaders.
  apply (map_fold_weak_ind
    (fun r m => exists added,
       Header_Get r k = Header_Get dst k ++ added /\
       forall v, v ∈ added ->
         exists k' vv, m !! k' = Some vv /\ canon k' = k /\ v ∈ vv)).
  - exists []. rewrite app_nil_r. split; [reflexivity|].
    intros v Hv. apply elem_of_nil in Hv. destruct Hv.
  - intros i x m r Hi (added & Hget & Hfrom).
    rewrite addValues_get. case_decide as Hk.
    + exists (added ++ x). rewrite Hget, <- app_assoc. split; [reflexivity|].
      intros v Hv. apply elem_of_app in Hv. destruct Hv as [Hv|Hv].
      * destruct (Hfrom v Hv) as (k' & vv & Hk' & Hc & Hvv).
        exists k', vv. repeat split; auto.
        rewrite lookup_insert_ne; [exact Hk'|]. intros ->. congruence.
      * exists i, x. rewrite lookup_insert_eq. auto.
    + exists added. split; [exact Hget|].
      intros v Hv. destruct (Hfrom v Hv) as (k' & vv & Hk' & Hc & Hvv).
      exists k', vv. repeat split; auto.
      rewrite lookup_insert_ne; [exact Hk'|]. intros ->. congruence.
Qed.

(** ** Options of New *)

(** [New] hands back either a Streamer and no error, or an error and no
    Streamer; a Streamer it hands back has an error handler and a logger,
    also when [ErrorHandler(nil)] or [Logger(nil)] was among the options. *)
Theorem New_returns_a_usable_Streamer_or_an_error
    (next_ : option (http_Handler HState)) (setters : list optSetter) :
  (exists s, New next_ setters = (Some s, None) /\
             is_Some (errHandler s) /\ is_Some (log s)) \/
  (exists err, New next_ setters = (None, Some err)).
Proof.
  unfold New.
  destruct (applySetters setters _) as [s' [err|]]; [right; eauto|].
  left. eexists. split; [reflexivity|].
  destruct (errHandler s') eqn:He, (log s') eqn:Hl; cbn; rewrite ?He, ?Hl; eauto.
Qed.

(** A size option that is accepted and comes last decides its field and
    nothing else: the Streamer is the one [New] builds from the options
    before it, with that field replaced. *)
Theorem last_size_option_wins (next_ : option (http_Handler HState))
    (setters : list optSetter) s (m : Z) :
  0 <= m ->
  New next_ setters = (Some s, None) ->
  New next_ (setters ++ [MaxRequestBodyBytes m]) = (Some (set_maxRequestBodyBytes m s), None) /\
  New next_ (setters ++ [MemRequestBodyBytes m]) = (Some (set_memRequestBodyBytes m s), None) /\
  New next_ (setters ++ [MaxResponseBodyBytes m]) = (Some (set_maxResponseBodyBytes m s), None) /\
  New next_ (setters ++ [MemResponseBodyBytes m]) = (Some (set_memResponseBodyBytes m s), None).
Proof.
  intros Hm. unfold New. rewrite !applySetters_app.
  destruct (applySetters setters _) as [s' [err|]]; [discriminate|].
  intros [= <-]. cbn.
  unfold MaxRequestBodyBytes, MemRequestBodyBytes, MaxResponseBodyBytes,
    MemResponseBodyBytes.
  destruct (Z.ltb_spec m 0); [lia|].
  destruct (errHandler s') eqn:He, (log s') eqn:Hl;
    unfold set_maxRequestBodyBytes, set_memRequestBodyBytes, set_maxResponseBodyBytes,
      set_memResponseBodyBytes, set_errHandler, set_log;
    cbn; rewrite ?He, ?Hl; cbn; rewrite ?He, ?Hl; repeat split; reflexivity.
Qed.

(** [Retry] as last option: an expression that does not compile makes
    [New] fail with the compiler's error, and one that compiles installs
    the compiled predicate and changes nothing else. *)
Theorem Retry_installs_the_compiled_predicate_or_fails
    (next_ : option (http_Handler HState)) (setters : list optSetter) s (e : string) :
  New next_ setters = (Some s, None) ->
  New next_ (setters ++ [Retry e]) =
  match parseExpression e with
  | inl p => (Some (set_retryPredicate (Some p) s), None)
  | inr err => (None, Some err)
  end.
Proof.
  unfold New. rewrite !applySetters_app.
  destruct (applySetters setters _) as [s' [err|]]; [discriminate|].
  intros [= <-]. cbn. unfold Retry.
  destruct (parseExpression e) as [p|err]; [|reflexivity].
  destruct (errHandler s') eqn:He, (log s') eqn:Hl;
    unfold set_retryPredicate, set_errHandler, set_log;
    cbn; rewrite ?He, ?Hl; cbn; rewrite ?He, ?Hl; reflexivity.
Qed.

(** Passing nil to [ErrorHandler] or [Logger] as last option selects the
    defaults, [SizeErrHandler] and [utils.NullLogger]. *)
Theorem nil_collaborators_fall_back_to_defaults
    (next_ : option (http_Handler HState)) (setters : list optSetter) s :
  New next_ setters = (Some s, None) ->
  New next_ (setters ++ [ErrorHandler None]) =
    (Some (set_errHandler (Some SizeErrHandler) s), None) /\
  New next_ (setters ++ [Logger None]) =
    (Some (set_log (Some NullLogger) s), None).
Proof.
  unfold New. rewrite !applySetters_app.
  destruct (applySetters setters _) as [s' [err|]]; [discriminate|].
  intros [= <-].
  destruct (errHandler s') eqn:He, (log s') eqn:Hl;
    unfold ErrorHandler, Logger, pkg_errHandler, set_errHandler, set_log;
    cbn; rewrite ?He, ?Hl; cbn; rewrite ?He, ?Hl; split; reflexivity.
Qed.

(** ** Errors are passed on unchanged *)






End Properties.

(** * Runs on concrete inputs *)

#[local] Existing Instance Sample.host.

Import Sample.

(** Finds an event in the trace of a concrete run. *)
Ltac pick_event := vm_compute; repeat (first [left; reflexivity | right]).

(** C1, as stated, fails: a predicate that keeps asking for a retry gets
    the handler invoked eleven times, one more than the ceiling of 10. *)
Lemma eleven_invocations_with_eager_predicate :
  invocations (w_trace (ServeHTTP (build always502 [Retry retry100]) noFaults chunked
                          (initWorld fresh 0%nat))) = 11%nat /\
  ~ (invocations (w_trace (ServeHTTP (build always502 [Retry retry100]) noFaults chunked
                             (initWorld fresh 0%nat)))
     <= Z.to_nat DefaultMaxRetryAttempts)%nat.
Proof.
  assert (Hrun : invocations (w_trace (ServeHTTP (build always502 [Retry retry100])
                   noFaults chunked (initWorld fresh 0%nat))) = 11%nat)
    by (vm_compute; reflexivity).
  rewrite Hrun. split; [reflexivity|]. vm_compute. lia.
Qed.

(** The first and the third dispatch of a chunked five-byte request to
    [meddling502], which each time reads two bytes and overwrites the
    envelope it was handed. *)
Lemma replay_is_byte_identical_witness :
  let s := build meddling502 [Retry retry502] in
  let o := copyRequest s chunked BufferBody 5 in
  let m := {| mr_data := list_byte_of_string "hello"; mr_pos := 0 |} in
  mr_remaining m = mr_remaining m /\
  mr_remaining m = inbound_bytes chunked /\
  mr_pos m = 0%nat /\ mr_pos m = 0%nat /\ m = m /\
  o = copyRequest s chunked BufferBody (Z.of_nat (length (inbound_bytes chunked))) /\
  o = o /\
  Body o = BufferBody /\ ContentLength o = ContentLength o.
Proof.
  intros s o m.
  apply (replay_is_byte_identical s noFaults chunked fresh 0%nat 1 o m 3 o m).
  - pick_event.
  - pick_event.
Defined.

(** C3, as stated, fails: with an error handler supplied through the
    [ErrorHandler] option, an over-limit request is answered by that
    handler, here with 418 rather than 413. *)
Lemma custom_error_handler_answers_over_limit_request :
  let s := build hello [MaxRequestBodyBytes 5; ErrorHandler (Some teapot)] in
  0 < maxRequestBodyBytes s /\
  maxRequestBodyBytes s < ContentLength declared10 /\
  rw_codes (w_sink (ServeHTTP s noFaults declared10 (initWorld fresh 0%nat))) = [418] /\
  rw_codes (w_sink (ServeHTTP s noFaults declared10 (initWorld fresh 0%nat)))
    <> [StatusRequestEntityTooLarge].
Proof.
  intros s.
  assert (Hrun : rw_codes (w_sink (ServeHTTP s noFaults declared10 (initWorld fresh 0%nat)))
                 = [418]) by (vm_compute; reflexivity).
  rewrite Hrun. repeat split; try (vm_compute; reflexivity). discriminate.
Qed.

(** A request declaring ten bytes against a limit of five, with the
    default error handler. *)
Lemma over_limit_request_goes_to_error_handler_witness :
  let s := build hello [MaxRequestBodyBytes 5] in
  w_trace (ServeHTTP s noFaults declared10 (initWorld fresh 0%nat)) =
    [EvLog NullLogger INFO "request body over limit: %v";
     EvErrHandler (Some (MaxSizeReachedError (maxRequestBodyBytes s)))] /\
  invocations (w_trace (ServeHTTP s noFaults declared10 (initWorld fresh 0%nat))) = 0%nat /\
  ~ In EvReadBody (w_trace (ServeHTTP s noFaults declared10 (initWorld fresh 0%nat))) /\
  w_hstate (ServeHTTP s noFaults declared10 (initWorld fresh 0%nat)) = 0%nat /\
  w_sink (ServeHTTP s noFaults declared10 (initWorld fresh 0%nat)) =
    pkg_errHandler fresh declared10 (Some (MaxSizeReachedError (maxRequestBodyBytes s))) /\
  SizeErrHandler fresh declared10 (Some (MaxSizeReachedError (maxRequestBodyBytes s))) =
    rw_Write (rw_WriteHeader fresh StatusRequestEntityTooLarge)
             (list_byte_of_string "Request Entity Too Large").
Proof.
  intros s.
  apply (over_limit_request_goes_to_error_handler s noFaults declared10 fresh 0%nat
           NullLogger pkg_errHandler); reflexivity.
Defined.

(** The second dispatch of the chunked request. *)
Lemma reframed_request_has_length_and_no_encoding_witness :
  let s := build always502 [Retry retry502] in
  let o := copyRequest s chunked BufferBody 5 in
  let m := {| mr_data := list_byte_of_string "hello"; mr_pos := 0 |} in
  ContentLength o = Z.of_nat (length (mr_data m)) /\
  mr_data m = inbound_bytes chunked /\
  TransferEncoding o = [].
Proof.
  intros s o m.
  apply (reframed_request_has_length_and_no_encoding s noFaults chunked fresh 0%nat 2 o m).
  pick_event.
Defined.

(** [always502] leaves code 502 whatever its writer answers. *)
Lemma always502_sets_502 : always_sets always502 502.
Proof.
  intros st outreq b m. cbn. unfold bufferWriter_Write, wo_Write.
  destruct (_ && _); reflexivity.
Defined.

(** [always502] writes its body to any response writer without a limit. *)
Lemma always502_writes : always_writes always502.
Proof.
  intros st outreq b m Hunl. unfold always502. cbn [run_handler mr_Read fst snd].
  unfold bufferWriter_Write, wo_Write.
  destruct (Z.ltb_spec 0 (wo_maxBytes (buffer (bufferWriter_WriteHeader
              (bufferWriter_mutateHeader b (fun h => <["X-Try" := ["again"]]> h)) 502))))
    as [Hlt|_]; [cbn in Hlt; lia|].
  cbn. intros Heq. apply app_eq_nil in Heq. destruct Heq as [_ Heq]. discriminate Heq.
Defined.

(** C5, as stated, fails: a handler that sets status 502 on every
    invocation and writes no body is invoked once only.  No reader can be
    had from its capture, so the error handler answers, with 500 under the
    sample host, although the predicate would have asked for a retry. *)
Lemma status_only_502_handler_is_invoked_once :
  always_sets bare502 502 /\
  invocations (w_trace (ServeHTTP (build bare502 [Retry retry502]) noFaults chunked
                          (initWorld fresh 0%nat))) = 1%nat /\
  rw_codes (w_sink (ServeHTTP (build bare502 [Retry retry502]) noFaults chunked
                      (initWorld fresh 0%nat))) = [500] /\
  ~ (invocations (w_trace (ServeHTTP (build bare502 [Retry retry502]) noFaults chunked
                             (initWorld fresh 0%nat))) = 3%nat /\
     rw_codes (w_sink (ServeHTTP (build bare502 [Retry retry502]) noFaults chunked
                         (initWorld fresh 0%nat))) = rw_codes fresh ++ [502]).
Proof.
  assert (Hrun : invocations (w_trace (ServeHTTP (build bare502 [Retry retry502]) noFaults
                   chunked (initWorld fresh 0%nat))) = 1%nat)
    by (vm_compute; reflexivity).
  split; [|split; [|split]].
  - intros st outreq b m. reflexivity.
  - exact Hrun.
  - vm_compute. reflexivity.
  - rewrite Hrun. intros [Hthree _]. discriminate Hthree.
Qed.

(** [always502] behind [New(h, Retry(retry502))]. *)
Lemma retry_on_502_invokes_three_times_witness :
  invocations (w_trace (ServeHTTP (build always502 [Retry retry502]) noFaults chunked
                          (initWorld fresh 0%nat))) = 3%nat /\
  rw_codes (w_sink (ServeHTTP (build always502 [Retry retry502]) noFaults chunked
                      (initWorld fresh 0%nat))) = rw_codes fresh ++ [502].
Proof.
  apply (retry_on_502_invokes_three_times (build always502 [Retry retry502]) noFaults
           chunked fresh 0%nat always502 NullLogger).
  - reflexivity.
  - reflexivity.
  - exact always502_sets_502.
  - exact always502_writes.
  - vm_compute. intros Hgt. discriminate Hgt.
  - reflexivity.
  - repeat split; reflexivity.
  - left. vm_compute. intros Hgt. discriminate Hgt.
Defined.

(** C6, as stated, fails: when the second attempt starts, the bufferWriter
    of the first attempt is still open, since the deferred [Close] calls
    only run when [ServeHTTP] returns. *)
Lemma two_captures_open_during_retry :
  ~ one_capture_open_at_a_time
      (w_trace (ServeHTTP (build always502 [Retry retry502]) noFaults chunked
                  (initWorld fresh 0%nat))).
Proof.
  intros Hone.
  set (tr := w_trace (ServeHTTP (build always502 [Retry retry502]) noFaults chunked
                        (initWorld fresh 0%nat))) in *.
  assert (Heq : 1 = 2); [|discriminate Heq].
  apply (Hone (firstn 11 tr) (skipn 11 tr)).
  - symmetry. apply firstn_skipn.
  - pick_event.
  - pick_event.
Qed.

(** The bufferWriter of the first of three attempts. *)
Lemma every_capture_is_closed_once_witness :
  exists pre post,
    w_trace (ServeHTTP (build always502 [Retry retry502]) noFaults chunked
               (initWorld fresh 0%nat)) = pre ++ EvClose (ResWriter 1) :: post /\
    In (EvOpen (ResWriter 1)) pre /\
    ~ In (EvClose (ResWriter 1)) pre /\
    ~ In (EvClose (ResWriter 1)) post /\
    forall e, In e post -> is_close e = true.
Proof.
  apply (every_capture_is_closed_once (build always502 [Retry retry502]) noFaults chunked
           fresh 0%nat (ResWriter 1)).
  pick_event.
Defined.

(** The third attempt of [always502] is the one delivered. *)
Lemma delivered_headers_are_those_of_the_final_attempt_witness :
  let s := build always502 [Retry retry502] in
  let w := ServeHTTP s noFaults chunked (initWorld fresh 0%nat) in
  captured_fresh s third_capture /\
  rw_header (w_sink w) = copyHeaders CanonicalHeaderKey (rw_header fresh) (header third_capture) /\
  (forall key v,
      v ∈ Header_Get (rw_header (w_sink w)) key <->
      v ∈ Header_Get (rw_header fresh) key \/
      exists key' vv,
        header third_capture !! key' = Some vv /\ CanonicalHeaderKey key' = key /\ v ∈ vv) /\
  ((forall key, is_Some (header third_capture !! key) -> CanonicalHeaderKey key = key) ->
   forall key,
     Header_Get (rw_header (w_sink w)) key =
     Header_Get (rw_header fresh) key ++ Header_Get (header third_capture) key).
Proof.
  intros s w.
  apply (delivered_headers_are_those_of_the_final_attempt s noFaults chunked fresh 0%nat
           3 third_capture).
  - pick_event.
  - pick_event.
Defined.

(** C8, at the failing input.  The handler of the package documentation only
    calls [Write]; the code of its bufferWriter stays 0, so the retry
    predicate is shown response code 0 and [ServeHTTP] calls
    [w.WriteHeader(0)] on the real writer, where the claim expects 200. *)
Theorem unset_status_code_is_passed_on_as_zero :
  observed_codes (w_trace (ServeHTTP (build hello [Retry retry502]) noFaults chunked
                             (initWorld fresh 0%nat))) = [0] /\
  rw_codes (w_sink (ServeHTTP (build hello [Retry retry502]) noFaults chunked
                      (initWorld fresh 0%nat))) = [0] /\
  rw_body (w_sink (ServeHTTP (build hello [Retry retry502]) noFaults chunked
                     (initWorld fresh 0%nat))) = list_byte_of_string "hello".
Proof. repeat split; vm_compute; reflexivity. Qed.

(** C9, as stated, fails: [Wrap] is an exported method and replaces the
    wrapped handler of a constructed Streamer, and the closure that the
    exported [MaxRequestBodyBytes] returns assigns its size limit. *)
Lemma Wrap_and_options_change_a_constructed_Streamer :
  receiver_after (build hello []) (CallWrap None) <> build hello [] /\
  receiver_after (build hello []) (CallOption (OptMaxRequestBodyBytes 7)) <> build hello [].
Proof.
  split; intros Heq.
  - apply (f_equal next) in Heq. cbv in Heq. discriminate Heq.
  - apply (f_equal maxRequestBodyBytes) in Heq. cbv in Heq. discriminate Heq.
Qed.

(** [New] with a negative [MemRequestBodyBytes] after a valid
    [MaxRequestBodyBytes]. *)
Lemma setters_reject_negative_and_New_propagates_witness :
  New (Some hello) ([MaxRequestBodyBytes 5] ++ MemRequestBodyBytes (-1) :: [Logger None]) =
  (None, Some (Errorf "mem bytes should be >= 0 got %d" (-1))).
Proof.
  eapply (proj2 (@setters_reject_negative_and_New_propagates nat host)).
  - reflexivity.
  - reflexivity.
Defined.

(** ** Witnesses of the further properties *)

(** A Streamer from [New] with a handler. *)
Lemma no_nil_field_is_dereferenced_witness :
  ~ In EvPanic (w_trace (ServeHTTP (build always502 [Retry retry502]) seekFails chunked
                           (initWorld fresh 0%nat))).
Proof.
  apply (no_nil_field_is_dereferenced (build always502 [Retry retry502]) seekFails chunked
           fresh 0%nat always502 NullLogger pkg_errHandler); reflexivity.
Defined.

(** The second evaluation of the predicate. *)
Lemma predicate_sees_the_attempt_that_returned_witness :
  let s := build always502 [Retry retry502] in
  ctx_r second_context = chunked /\ ctx_log second_context = log s /\
  1 <= ctx_attempt second_context <= DefaultMaxRetryAttempts /\
  is_Some (retryPredicate s) /\
  exists b,
    In (EvReturn (ctx_attempt second_context) b)
       (w_trace (ServeHTTP s noFaults chunked (initWorld fresh 0%nat))) /\
    ctx_responseCode second_context = code b.
Proof.
  intros s.
  apply (predicate_sees_the_attempt_that_returned s noFaults chunked fresh 0%nat
           second_context).
  pick_event.
Defined.

(** The second dispatch was asked for. *)
Lemma every_retry_was_requested_by_the_predicate_witness :
  let s := build always502 [Retry retry502] in
  2 = 1 \/
  exists p c,
    retryPredicate s = Some p /\
    In (EvPredicate c) (w_trace (ServeHTTP s noFaults chunked (initWorld fresh 0%nat))) /\
    ctx_attempt c = 2 - 1 /\ p c = true.
Proof.
  intros s.
  apply (every_retry_was_requested_by_the_predicate s noFaults chunked fresh 0%nat 2
           (copyRequest s chunked BufferBody 5)
           {| mr_data := list_byte_of_string "hello"; mr_pos := 0 |}).
  pick_event.
Defined.

(** [always502] behind [New(h)], without options. *)
Lemma without_predicate_the_handler_is_invoked_once_witness :
  let s := build always502 [] in
  invocations (w_trace (ServeHTTP s noFaults chunked (initWorld fresh 0%nat))) = 1%nat /\
  observed_codes (w_trace (ServeHTTP s noFaults chunked (initWorld fresh 0%nat))) = [] /\
  w_hstate (ServeHTTP s noFaults chunked (initWorld fresh 0%nat)) =
    (first_invocation s always502 0%nat chunked).1.1.1 /\
  (wo_data (buffer (first_invocation s always502 0%nat chunked).1.1.2) <> [] ->
     w_sink (ServeHTTP s noFaults chunked (initWorld fresh 0%nat)) =
       delivered fresh (first_invocation s always502 0%nat chunked).1.1.2) /\
  (wo_written (buffer (first_invocation s always502 0%nat chunked).1.1.2) = false ->
     w_sink (ServeHTTP s noFaults chunked (initWorld fresh 0%nat)) =
       pkg_errHandler fresh chunked (Some (OtherError "no data ready")) /\
     ~ In (EvDeliver 1) (w_trace (ServeHTTP s noFaults chunked (initWorld fresh 0%nat)))).
Proof.
  intros s.
  apply (without_predicate_the_handler_is_invoked_once s noFaults chunked fresh 0%nat
           always502 NullLogger pkg_errHandler).
  - reflexivity.
  - reflexivity.
  - reflexivity.
  - reflexivity.
  - vm_compute. intros Hgt. discriminate Hgt.
  - repeat split; reflexivity.
  - left. vm_compute. intros Hgt. discriminate Hgt.
Defined.

(** The Streamer [eager]. *)
Lemma eager_predicate_stops_at_attempt_eleven_witness :
  invocations (w_trace (ServeHTTP eager noFaults chunked (initWorld fresh 0%nat))) = 11%nat /\
  length (observed_codes (w_trace (ServeHTTP eager noFaults chunked (initWorld fresh 0%nat))))
    = 10%nat /\
  In (EvDeliver 11) (w_trace (ServeHTTP eager noFaults chunked (initWorld fresh 0%nat))).
Proof.
  apply (eager_predicate_stops_at_attempt_eleven eager noFaults chunked fresh 0%nat
           (fun _ => true) always502 NullLogger).
  - reflexivity.
  - intros c. reflexivity.
  - reflexivity.
  - exact always502_writes.
  - vm_compute. intros Hgt. discriminate Hgt.
  - reflexivity.
  - repeat split; reflexivity.
  - left. vm_compute. intros Hgt. discriminate Hgt.
Defined.

(** The third attempt of [always502] is delivered. *)
Lemma delivered_status_and_body_are_the_final_capture_witness :
  let w := ServeHTTP (build always502 [Retry retry502]) noFaults chunked
             (initWorld fresh 0%nat) in
  rw_codes (w_sink w) = rw_codes fresh ++ [code third_capture] /\
  rw_body (w_sink w) = rw_body fresh ++ wo_data (buffer third_capture).
Proof.
  intros w.
  apply (delivered_status_and_body_are_the_final_capture
           (build always502 [Retry retry502]) noFaults chunked fresh 0%nat 3 third_capture).
  - pick_event.
  - pick_event.
Defined.

(** The first dispatch of the chunked request. *)
Lemma handler_runs_only_after_buffering_witness :
  exists rest,
    w_trace (ServeHTTP (build always502 [Retry retry502]) noFaults chunked
               (initWorld fresh 0%nat)) = EvReadBody :: EvOpen ResBody :: rest.
Proof.
  apply (handler_runs_only_after_buffering (build always502 [Retry retry502]) noFaults
           chunked fresh 0%nat 1
           (copyRequest (build always502 [Retry retry502]) chunked BufferBody 5)
           {| mr_data := list_byte_of_string "hello"; mr_pos := 0 |}).
  pick_event.
Defined.

(** A limit of 4096 bytes after the default options. *)
Lemma last_size_option_wins_witness :
  let s := build hello [] in
  New (Some hello) ([] ++ [MaxRequestBodyBytes 4096]) = (Some (set_maxRequestBodyBytes 4096 s), None) /\
  New (Some hello) ([] ++ [MemRequestBodyBytes 4096]) = (Some (set_memRequestBodyBytes 4096 s), None) /\
  New (Some hello) ([] ++ [MaxResponseBodyBytes 4096]) = (Some (set_maxResponseBodyBytes 4096 s), None) /\
  New (Some hello) ([] ++ [MemResponseBodyBytes 4096]) = (Some (set_memResponseBodyBytes 4096 s), None).
Proof.
  intros s.
  apply (last_size_option_wins (Some hello) [] s 4096).
  - lia.
  - reflexivity.
Defined.

(** An expression the sample compiler knows. *)
Lemma Retry_installs_the_compiled_predicate_or_fails_witness :
  New (Some hello) ([MaxRequestBodyBytes 5] ++ [Retry retry502]) =
  match parseExpression retry502 with
  | inl p => (Some (set_retryPredicate (Some p) (build hello [MaxRequestBodyBytes 5])), None)
  | inr err => (None, Some err)
  end.
Proof.
  apply (Retry_installs_the_compiled_predicate_or_fails (Some hello)
           [MaxRequestBodyBytes 5] (build hello [MaxRequestBodyBytes 5]) retry502).
  reflexivity.
Defined.

(** Nil after an explicit error handler. *)
Lemma nil_collaborators_fall_back_to_defaults_witness :
  let s := build hello [ErrorHandler (Some teapot)] in
  New (Some hello) ([ErrorHandler (Some teapot)] ++ [ErrorHandler None]) =
    (Some (set_errHandler (Some SizeErrHandler) s), None) /\
  New (Some hello) ([ErrorHandler (Some teapot)] ++ [Logger None]) =
    (Some (set_log (Some NullLogger) s), None).
Proof.
  intros s.
  apply (nil_collaborators_fall_back_to_defaults (Some hello) [ErrorHandler (Some teapot)] s).
  reflexivity.
Defined.


(** The third attempt of [always502] is delivered; it wrote its body. *)
Lemma only_written_captures_are_delivered_witness :
  wo_written (buffer third_capture) = true /\ f_Reader noFaults 3 = None.
Proof.
  apply (only_written_captures_are_delivered (build always502 [Retry retry502]) noFaults
           chunked fresh 0%nat 3 third_capture).
  - pick_event.
  - pick_event.
Defined.
